(** * FitLog browser scripts: the reorder table, the request flows, the sets clamp

    A shallow embedding of [static/js/edit.js], [static/js/index.js] and
    [static/js/record.js].

    - DOM nodes are records carrying a [key] that stands for the node's
      identity; the table body is the list of its child nodes in document
      order, and every mutation goes through the key, as the scripts go
      through node references.  A table is well formed when its children
      have distinct keys; the rows are children of the table body, not
      deeper descendants.
    - Pixel coordinates are rationals with exact arithmetic; the layout is
      whatever [getBoundingClientRect] reports at the time of an event.
    - Values of inputs are strings; [Number] is the StringToNumber
      conversion on ASCII text, rounded to binary64.
    - Handlers that talk to the user or the network are terms of a small
      free monad [io], run against an environment that answers dialogs and
      settles requests.  A handler runs to its end, or to a request that
      never settles, before the next event is looked at. *)

From Stdlib Require Import QArith Lqa Ascii String.
From stdpp Require Import base option list sets strings pretty.

Set Default Proof Using "Type".

(* ================================================================== *)
(** * Definitions *)
(* ================================================================== *)

(** ** Completions of synchronous handlers *)

Inductive exn := NotFoundError.

Inductive completion (A : Type) :=
  | Normal (a : A)
  | Thrown (e : exn).
Arguments Normal {A} a.
Arguments Thrown {A} e.

Definition cbind {A B} (c : completion A) (f : A → completion B) : completion B :=
  match c with
  | Normal a => f a
  | Thrown e => Thrown e
  end.

(** ** Asynchronous handlers: dialogs, requests, reload

    A handler is a term of [io S A]: it reads and writes the document state
    [S], shows dialogs, awaits requests and reloads the page.  A rejected
    [await] is [Throw]; [try_catch] and [finally] are the statements of the
    same name. *)

Module browser.

(** [fetch(url, { method: "POST", body })] *)
Record request := Request { url : string; body : list (string * string) }.

(** How a request settles: a response, of which only [ok] is read, or a
    rejection (the request could not be sent or completed). *)
Inductive settled :=
  | Fulfilled (ok : bool)
  | Rejected.

Inductive io (St A : Type) : Type :=
  | Ret (a : A)
  | Throw
  | Get (k : St → io St A)
  | Modify (f : St → St) (k : io St A)
  | Alert (msg : string) (k : io St A)
  | Confirm (msg : string) (k : bool → io St A)
  | Fetch (req : request) (k : settled → io St A)
  | Reload (k : io St A).
Arguments Ret {St A} a.
Arguments Throw {St A}.
Arguments Get {St A} k.
Arguments Modify {St A} f k.
Arguments Alert {St A} msg k.
Arguments Confirm {St A} msg k.
Arguments Fetch {St A} req k.
Arguments Reload {St A} k.

(** [const res = await fetch(...)] *)
Definition await_fetch {St A} (req : request) (k : bool → io St A) : io St A :=
  Fetch req (λ r, match r with
                  | Fulfilled ok => k ok
                  | Rejected => Throw
                  end).

(** [try { body } catch { handler }] *)
Fixpoint try_catch {St A} (body handler : io St A) : io St A :=
  match body with
  | Ret a => Ret a
  | Throw => handler
  | Get k => Get (λ s, try_catch (k s) handler)
  | Modify f k => Modify f (try_catch k handler)
  | Alert msg k => Alert msg (try_catch k handler)
  | Confirm msg k => Confirm msg (λ b, try_catch (k b) handler)
  | Fetch req k => Fetch req (λ r, try_catch (k r) handler)
  | Reload k => Reload (try_catch k handler)
  end.

(** [try { body } finally { s = fin(s) }] *)
Fixpoint finally {St A} (body : io St A) (fin : St → St) : io St A :=
  match body with
  | Ret a => Modify fin (Ret a)
  | Throw => Modify fin Throw
  | Get k => Get (λ s, finally (k s) fin)
  | Modify f k => Modify f (finally k fin)
  | Alert msg k => Alert msg (finally k fin)
  | Confirm msg k => Confirm msg (λ b, finally (k b) fin)
  | Fetch req k => Fetch req (λ r, finally (k r) fin)
  | Reload k => Reload (finally k fin)
  end.

(** What the user and the network see of a run. *)
Inductive obs :=
  | OAlert (msg : string)
  | OConfirm (msg : string) (answer : bool)
  | OFetch (req : request) (res : option settled)   (* [None]: never settles *)
  | OReload.

(** How a run ends: the handler returns, its promise rejects with nobody
    to catch it, or it stays suspended at a request that never settles. *)
Inductive outcome (A : Type) :=
  | Returned (a : A)
  | Uncaught
  | Hung.
Arguments Returned {A} a.
Arguments Uncaught {A}.
Arguments Hung {A}.

(** The environment answers the [n]-th dialog and settles the [n]-th
    request of a run. *)
Record env := Env { answer : nat → bool; settle : nat → option settled }.

(** A run yields the observations, each with the document state at the
    time, the final state and the outcome. *)
Fixpoint run {St A} (e : env) (nc nf : nat) (s : St) (p : io St A)
  : list (obs * St) * St * outcome A :=
  match p with
  | Ret a => ([], s, Returned a)
  | Throw => ([], s, Uncaught)
  | Get k => run e nc nf s (k s)
  | Modify f k => run e nc nf (f s) k
  | Alert msg k =>
      let '(t, s', o) := run e nc nf s k in ((OAlert msg, s) :: t, s', o)
  | Confirm msg k =>
      let b := answer e nc in
      let '(t, s', o) := run e (S nc) nf s (k b) in ((OConfirm msg b, s) :: t, s', o)
  | Fetch req k =>
      match settle e nf with
      | None => ([(OFetch req None, s)], s, Hung)
      | Some r =>
          let '(t, s', o) := run e nc (S nf) s (k r) in
          ((OFetch req (Some r), s) :: t, s', o)
      end
  | Reload k =>
      let '(t, s', o) := run e nc nf s k in ((OReload, s) :: t, s', o)
  end.

Definition exec {St A} (e : env) (s : St) (p : io St A) := run e 0 0 s p.

Definition requests {St} (t : list (obs * St)) : list (request * option settled) :=
  omap (λ x, match fst x with OFetch req res => Some (req, res) | _ => None end) t.

Definition alerts {St} (t : list (obs * St)) : list string :=
  omap (λ x, match fst x with OAlert msg => Some msg | _ => None end) t.

Definition confirms {St} (t : list (obs * St)) : list bool :=
  omap (λ x, match fst x with OConfirm _ b => Some b | _ => None end) t.

Definition reloads {St} (t : list (obs * St)) : nat :=
  length (omap (λ x, match fst x with OReload => Some tt | _ => None end) t).

(** JavaScript truthiness of an attribute or property that may be absent. *)
Definition truthy (v : option string) : option string :=
  match v with
  | Some s => if decide (s = "") then None else Some s
  | None => None
  end.

End browser.

(** ** edit.js: the reorder table *)

Module edit_js.

(** A child of [#dndTable tbody]. *)
Record tr := Tr {
  key : nat;                  (* identity of the node *)
  dnd_row : bool;             (* the node matches [tr.dnd-row] *)
  is_dragging : bool;         (* classList contains [is-dragging] *)
  exercise_id : string;       (* the exercise the row stands for *)
  position : option string;   (* value of the row's first
                                 [input[name="position[]"]]; [None] when the
                                 row holds no such input *)
}.

Global Instance tr_eq_dec : EqDecision tr.
Proof. solve_decision. Defined.

(** What [getBoundingClientRect] reports for a node. *)
Record DOMRect := Rect { top : Q; height : Q }.

(** The closure of the script: the table body and the module variable
    [dragEl], which holds a reference (a key) or [null]. *)
Record page := Page {
  children : list tr;
  dragEl : option nat;
}.

(** Selectors. *)
Definition sel_row (n : tr) : bool := dnd_row n.
Definition sel_row_not_dragging (n : tr) : bool := dnd_row n && negb (is_dragging n).
Definition sel_row_dragging (n : tr) : bool := dnd_row n && is_dragging n.

Definition querySelectorAll (sel : tr → bool) (c : list tr) : list tr :=
  filter (λ n, sel n) c.

Definition querySelector (sel : tr → bool) (c : list tr) : option tr :=
  head (querySelectorAll sel c).

(** Mutation of the node a reference points to. *)
Definition update_node (k : nat) (f : tr → tr) (c : list tr) : list tr :=
  (λ n, if decide (key n = k) then f n else n) <$> c.

Definition set_dragging (b : bool) (n : tr) : tr :=
  Tr (key n) (dnd_row n) b (exercise_id n) (position n).

(** [if (pos) pos.value = v] *)
Definition set_position_value (v : string) (n : tr) : tr :=
  match position n with
  | Some _ => Tr (key n) (dnd_row n) (is_dragging n) (exercise_id n) (Some v)
  | None => n
  end.

(** [updatePositions]: the rows are collected first, then each one is
    reached through its reference and given the decimal numeral of
    [i + 1]. *)
Definition updatePositions (c : list tr) : list tr :=
  foldl (λ c '(i, row), update_node (key row) (set_position_value (pretty (i + 1))) c)
        c
        (imap (λ i row, (i, row)) (querySelectorAll sel_row c)).

(** The accumulator of the [reduce] in [getDragAfterElement]:
    [offset] ([None] is [Number.NEGATIVE_INFINITY]) and [element]. *)
Record closest := Closest { offset : option Q; element : option nat }.

Definition Qlt_bool (a b : Q) : bool := negb (Qle_bool b a).

Definition gt_offset (o : Q) (c : option Q) : bool :=
  match c with
  | None => true
  | Some o' => Qlt_bool o' o
  end.

Definition reducer (rect : nat → DOMRect) (y : Q) (cl : closest) (child : tr) : closest :=
  let box := rect (key child) in
  let offset := (y - top box - height box / 2)%Q in
  if Qlt_bool offset 0 && gt_offset offset (edit_js.offset cl)
  then Closest (Some offset) (Some (key child))
  else cl.

Definition getDragAfterElement (rect : nat → DOMRect) (container : list tr) (y : Q)
  : option nat :=
  let els := querySelectorAll sel_row_not_dragging container in
  element (foldl (reducer rect y) (Closest None None) els).

(** [tbody.appendChild(node)] for a node that is already a child: the node
    leaves its place and becomes the last child. *)
Definition without (k : nat) (c : list tr) : list tr :=
  filter (λ n, key n ≠ k) c.

Definition appendChild (node : tr) (c : list tr) : list tr :=
  without (key node) c ++ [node].

(** [tbody.insertBefore(node, ref)]: [NotFoundError] when [ref] is not a
    child; nothing moves when [ref] is [node] itself. *)
Fixpoint insert_at (node : tr) (ref : nat) (c : list tr) : list tr :=
  match c with
  | [] => []
  | x :: rest =>
      if decide (key x = ref) then node :: x :: rest
      else x :: insert_at node ref rest
  end.

Definition insertBefore (node : tr) (ref : nat) (c : list tr) : completion (list tr) :=
  if decide (ref ∈ key <$> c) then
    if decide (ref = key node) then Normal c
    else Normal (insert_at node ref (without (key node) c))
  else Thrown NotFoundError.

(** The three drag events.  [dragstart] carries the key of the child the
    event target lies in; [dragover] carries [clientY] and the layout at the
    time of the event. *)
Inductive event :=
  | DragStart (target : nat)
  | DragOver (clientY : Q) (rect : nat → DOMRect)
  | DragEnd.

(** [e.target.closest("tr.dnd-row")] *)
Definition closest_row (target : nat) (c : list tr) : option tr :=
  head (filter (λ n, key n = target ∧ dnd_row n) c).

Definition on_dragstart (target : nat) (p : page) : page :=
  match closest_row target (children p) with
  | None => p
  | Some row =>
      Page (update_node (key row) (set_dragging true) (children p)) (Some (key row))
  end.

Definition on_dragend (p : page) : page :=
  let c := match dragEl p with
           | Some k => update_node k (set_dragging false) (children p)
           | None => children p
           end in
  Page (updatePositions c) None.

Definition on_dragover (clientY : Q) (rect : nat → DOMRect) (p : page) : completion page :=
  let after := getDragAfterElement rect (children p) clientY in
  match querySelector sel_row_dragging (children p) with
  | None => Normal p
  | Some dragging =>
      match after with
      | None => Normal (Page (appendChild dragging (children p)) (dragEl p))
      | Some a =>
          cbind (insertBefore dragging a (children p))
                (λ c, Normal (Page c (dragEl p)))
      end
  end.

Definition handle (ev : event) (p : page) : completion page :=
  match ev with
  | DragStart target => Normal (on_dragstart target p)
  | DragOver y rect => on_dragover y rect p
  | DragEnd => Normal (on_dragend p)
  end.

Fixpoint dispatch (evs : list event) (p : page) : completion page :=
  match evs with
  | [] => Normal p
  | ev :: rest => cbind (handle ev p) (dispatch rest)
  end.

(** Loading the script on the server-rendered table body: [dragEl = null],
    then the call of [updatePositions] that ends the script. *)
Definition load (rendered : list tr) : page :=
  Page (updatePositions rendered) None.

(** *** The removal and the save-then-add handlers *)

Import browser.

(** A form: its [action] and the entries [new FormData(form)] collects
    apart from the position inputs. *)
Record form := Form { action : string; fields : list (string * string) }.

(** The document as the handlers see it: the table body, and the
    [disabled] flag of the add form's [button[type="submit"]] ([None] when
    the form has no such button). *)
Record doc := Doc {
  tbody : page;
  addBtn : option bool;
}.

Definition set_disabled (b : bool) (d : doc) : doc :=
  Doc (tbody d) (match addBtn d with Some _ => Some b | None => None end).

Definition doc_updatePositions (d : doc) : doc :=
  Doc (Page (updatePositions (children (tbody d))) (dragEl (tbody d))) (addBtn d).

(** [new FormData(editForm)]: the position inputs are fields of the edit
    form. *)
Definition position_entries (c : list tr) : list (string * string) :=
  omap (λ n, (λ v, ("position[]", v)) <$> position n) c.

Definition FormData_edit (editForm : form) (d : doc) : list (string * string) :=
  fields editForm ++ position_entries (children (tbody d)).

(** The click listener on [tbody].  [btn] is the [data-remove] attribute of
    [e.target.closest("[data-remove]")], [None] when there is no such
    element; [removeUrl] is [table.dataset.removeUrl]. *)
Definition on_click (removeUrl : option string) (btn : option string) : io doc unit :=
  match btn with
  | None => Ret tt
  | Some exId =>
      match truthy removeUrl with
      | None => Alert "remove URL fehlt (data-remove-url)." (Ret tt)
      | Some url =>
          Confirm "Übung aus dem Plan entfernen?" (λ yes,
            if negb yes then Ret tt
            else
              await_fetch (Request url [("exercise_id", exId)]) (λ ok,
                if ok then Reload (Ret tt)
                else Alert "Entfernen fehlgeschlagen." (Ret tt)))
      end
  end.

(** The submit listener on [form.add-exercise-form], registered when both
    forms exist. *)
Definition on_add_submit (editForm addForm : form) : io doc unit :=
  Modify doc_updatePositions (
  Modify (set_disabled true) (
  finally
    (try_catch
       (Get (λ d,
        await_fetch (Request (action editForm) (FormData_edit editForm d)) (λ save_ok,
          if negb save_ok then
            Alert "Konnte Änderungen nicht speichern. Bitte zuerst speichern, dann Übung hinzufügen."
                  (Ret tt)
          else
            await_fetch (Request (action addForm) (fields addForm)) (λ add_ok,
              if negb add_ok then
                Alert "Übung konnte nicht hinzugefügt werden." (Ret tt)
              else Reload (Ret tt)))))
       (Alert "Netzwerkfehler. Bitte erneut versuchen." (Ret tt)))
    (set_disabled false))).

End edit_js.

(** ** index.js: deleting a plan *)

Module index_js.
Import browser.

(** [planList]: [None] when the element is missing, else its [value]. *)
Record doc := Doc { planList : option string }.

(** [selId] *)
Definition selId (d : doc) : option string := truthy (planList d).

(** The click listener on [btnDelete]. *)
Definition on_delete_click : io doc unit :=
  Get (λ d,
    match selId d with
    | None => Alert "Bitte einen Plan in der Liste auswählen." (Ret tt)
    | Some id =>
        Confirm "Diesen Plan wirklich löschen?" (λ yes,
          if negb yes then Ret tt
          else
            try_catch
              (await_fetch (Request ("/plans/" +:+ id +:+ "/delete") []) (λ ok,
                 if ok then Reload (Ret tt)
                 else Alert "Löschen fehlgeschlagen." (Ret tt)))
              (Alert "Netzwerkfehler beim Löschen." (Ret tt)))
    end).

End index_js.

(** ** record.js: clamping the sets fields *)

Module record_js.

(** A JavaScript number: [NaN], the infinities, or a finite double given by
    the rational it denotes (the two zeros are one value; no comparison of
    the script tells them apart). *)
Inductive number :=
  | NaN
  | PosInf
  | NegInf
  | Num (q : Q).

(** [a < b] and [a > b] *)
Definition js_lt (a b : number) : bool :=
  match a, b with
  | NaN, _ | _, NaN => false
  | PosInf, _ => false
  | _, NegInf => false
  | NegInf, _ => true
  | _, PosInf => true
  | Num x, Num y => edit_js.Qlt_bool x y
  end.

Definition js_gt (a b : number) : bool := js_lt b a.

(** *** [Number(string)]: the StringToNumber conversion, on ASCII text *)

(** Round-to-nearest, ties-to-even, of the non-negative rational [n / d]
    to a binary64 value. *)
Definition scaled_num (n : Z) (p : Z) : Z := if (p <? 0)%Z then (n * 2 ^ (- p))%Z else n.
Definition scaled_den (d : Z) (p : Z) : Z := if (p <? 0)%Z then d else (d * 2 ^ p)%Z.

Definition round_double (n : Z) (d : positive) : number :=
  if (n =? 0)%Z then Num 0
  else
    let e0 := (Z.log2 n - Z.log2 (Zpos d))%Z in
    let e := if (scaled_den (Zpos d) e0 <=? scaled_num n e0)%Z then e0 else (e0 - 1)%Z in
    let p := Z.max (e - 52) (-1074) in
    let num := scaled_num n p in
    let den := scaled_den (Zpos d) p in
    let m := (num / den)%Z in
    let r := (num mod den)%Z in
    let m' := if (den <? 2 * r)%Z || ((den =? 2 * r)%Z && Z.odd m)
              then (m + 1)%Z else m in
    if (0 <=? p)%Z then
      if (2 ^ 1024 <=? m' * 2 ^ p)%Z then PosInf
      else Num (inject_Z (m' * 2 ^ p))
    else Num (Qred (m' # Z.to_pos (2 ^ (- p)))).

Definition negate (v : number) : number :=
  match v with
  | NaN => NaN
  | PosInf => NegInf
  | NegInf => PosInf
  | Num q => Num (Qred (- q))
  end.

Definition is_white (c : ascii) : bool :=
  let n := nat_of_ascii c in
  (n =? 9) || (n =? 10) || (n =? 11) || (n =? 12) || (n =? 13) || (n =? 32).

Definition digit_value (c : ascii) : option Z :=
  let n := Z.of_nat (nat_of_ascii c) in
  if (48 <=? n)%Z && (n <=? 57)%Z then Some (n - 48)%Z
  else if (97 <=? n)%Z && (n <=? 102)%Z then Some (n - 87)%Z
  else if (65 <=? n)%Z && (n <=? 70)%Z then Some (n - 55)%Z
  else None.

(** The longest run of digits of [base] at the head of [l]: its value, its
    length and what follows it. *)
Fixpoint digits (base : Z) (l : list ascii) (acc : Z) (n : nat) : Z * nat * list ascii :=
  match l with
  | c :: rest =>
      match digit_value c with
      | Some d => if (d <? base)%Z then digits base rest (acc * base + d)%Z (S n)
                  else (acc, n, l)
      | None => (acc, n, l)
      end
  | [] => (acc, n, [])
  end.

Fixpoint drop_white (l : list ascii) : list ascii :=
  match l with
  | c :: rest => if is_white c then drop_white rest else l
  | [] => []
  end.

Definition trim (l : list ascii) : list ascii :=
  reverse (drop_white (reverse (drop_white l))).

(** ExponentPart, or nothing; [None] when the text is neither. *)
Definition parse_exponent (l : list ascii) : option Z :=
  match l with
  | [] => Some 0%Z
  | c :: rest =>
      if (Ascii.eqb c "e" || Ascii.eqb c "E")%char then
        let '(neg, rest') :=
          match rest with
          | "+"%char :: r => (false, r)
          | "-"%char :: r => (true, r)
          | _ => (false, rest)
          end in
        match digits 10 rest' 0 0 with
        | (v, S _, []) => Some (if neg then (- v)%Z else v)
        | _ => None
        end
      else None
  end.

(** StrUnsignedDecimalLiteral *)
Definition parse_unsigned (l : list ascii) : number :=
  if decide (l = list_ascii_of_string "Infinity") then PosInf
  else
    let '(i, ni, r1) := digits 10 l 0 0 in
    let '(f, nf, r2) :=
      match r1 with
      | "."%char :: r => digits 10 r 0 0
      | _ => (0%Z, 0, r1)
      end in
    if (ni + nf =? 0) then NaN
    else
      match parse_exponent r2 with
      | None => NaN
      | Some e =>
          let mant := (i * 10 ^ Z.of_nat nf + f)%Z in
          let e10 := (e - Z.of_nat nf)%Z in
          if (0 <=? e10)%Z then round_double (mant * 10 ^ e10) 1
          else round_double mant (Z.to_pos (10 ^ (- e10)))
      end.

(** NonDecimalIntegerLiteral: [0x], [0o], [0b] and digits of that base. *)
Definition parse_radix (base : Z) (l : list ascii) : number :=
  match digits base l 0 0 with
  | (v, S _, []) => round_double v 1
  | _ => NaN
  end.

Definition StringToNumber (s : string) : number :=
  match trim (list_ascii_of_string s) with
  | [] => Num 0
  | "0"%char :: c :: rest =>
      if (Ascii.eqb c "x" || Ascii.eqb c "X")%char then parse_radix 16 rest
      else if (Ascii.eqb c "o" || Ascii.eqb c "O")%char then parse_radix 8 rest
      else if (Ascii.eqb c "b" || Ascii.eqb c "B")%char then parse_radix 2 rest
      else parse_unsigned ("0"%char :: c :: rest)
  | "+"%char :: rest => parse_unsigned rest
  | "-"%char :: rest => negate (parse_unsigned rest)
  | l => parse_unsigned l
  end.

(** [Number(el.value || 0)] *)
Definition Number_or_0 (value : string) : number :=
  if decide (value = "") then Num 0 else StringToNumber value.

(** [name.endsWith(suffix)] *)
Definition endsWith (s suffix : string) : bool :=
  let n := String.length s in
  let m := String.length suffix in
  if m <=? n then bool_decide (substring (n - m) m s = suffix) else false.

(** The target of an input event: its [name] ([None] when the element has no
    such property) and its [value]. *)
Record element := Element { name : option string; value : string }.

Definition is_sets_field (el : element) : bool :=
  match browser.truthy (name el) with
  | Some n => endsWith n "[sets]"
  | None => false
  end.

(** The input listener on [document]; [ev.target] may be [null]. *)
Definition on_input (target : option element) : option element :=
  match target with
  | None => None
  | Some el =>
      if is_sets_field el then
        let v := Number_or_0 (value el) in
        let el := if js_lt v (Num 0) then Element (name el) "0" else el in
        let el := if js_gt v (Num 99) then Element (name el) "99" else el in
        Some el
      else Some el
  end.

End record_js.

(** ** Specification vocabulary *)

Module spec.
Import edit_js.

(** The rows of the table, top to bottom. *)
Definition rows (c : list tr) : list tr := querySelectorAll sel_row c.

(** A row's identifier: the node and the exercise it stands for. *)
Definition row_ids (c : list tr) : list (nat * string) :=
  (λ n, (key n, exercise_id n)) <$> rows c.

(** Numbering the rows in one pass from the top, starting after [i]. *)
Fixpoint renumber (i : nat) (c : list tr) : list tr :=
  match c with
  | [] => []
  | n :: rest =>
      if dnd_row n then set_position_value (pretty (i + 1)) n :: renumber (S i) rest
      else n :: renumber i rest
  end.

(** Every position field shows the 1-based place of its row. *)
Definition positions_in_sync (c : list tr) : Prop :=
  ∀ i r v, rows c !! i = Some r → position r = Some v → v = pretty (i + 1).


(** The candidate rows of a [dragover] and "ordered top to bottom". *)
Definition candidates (c : list tr) : list tr := querySelectorAll sel_row_not_dragging c.




(** The position field of the node with key [k]: [None] when the table has
    no such node, [Some None] when the node holds no position input. *)
Definition position_of (k : nat) (c : list tr) : option (option string) :=
  position <$> head (filter (λ n, key n = k) c).

(** The children [dragend] numbers: the dragged row has lost its class. *)
Definition settled_children (p : page) : list tr :=
  match dragEl p with
  | Some k => update_node k (set_dragging false) (children p)
  | None => children p
  end.

End spec.

(** What the sets clamp is measured against. *)
Module record_spec.
Import record_js.




End record_spec.

(** ** The scenario of the specification: rows A, B, C *)

Module scenario.
Import edit_js.

Definition A : tr := Tr 0 true false "A" (Some "1").
Definition B : tr := Tr 1 true false "B" (Some "2").
Definition C : tr := Tr 2 true false "C" (Some "3").

(** Rows 20 pixels high, stacked from the top of the viewport. *)
Definition stacked (order : list nat) (k : nat) : DOMRect :=
  match list_find (λ x, x = k) order with
  | Some (i, _) => Rect (inject_Z (20 * Z.of_nat i)) 20
  | None => Rect 0 0
  end.


End scenario.

(** ** String built-ins the scripts call

    A string is the UTF-8 text of the JavaScript string, byte by byte; the
    patterns and separators of the scripts are ASCII, so matching bytes is
    matching code units.  [encodeURIComponent] throws on a lone surrogate,
    which no UTF-8 text holds. *)

Module js_string.

Definition code (c : ascii) : nat := nat_of_ascii c.

Definition one_of (set : string) (c : ascii) : bool :=
  existsb (Ascii.eqb c) (list_ascii_of_string set).

Definition is_alnum (c : ascii) : bool :=
  let n := code c in
  ((48 <=? n) && (n <=? 57)) || ((65 <=? n) && (n <=? 90)) || ((97 <=? n) && (n <=? 122)).

(** [%XX], with upper-case hexadecimal digits. *)
Definition hex_digit (n : nat) : ascii :=
  ascii_of_nat (if n <? 10 then 48 + n else 55 + n).

Definition percent_encode (c : ascii) : string :=
  String "%" (String (hex_digit (code c / 16)) (String (hex_digit (code c mod 16)) "")).

(** [encodeURIComponent(s)] *)
Definition uri_unreserved (c : ascii) : bool := is_alnum c || one_of "-_.!~*'()" c.

Fixpoint encodeURIComponent (s : string) : string :=
  match s with
  | EmptyString => ""
  | String c rest =>
      (if uri_unreserved c then String c "" else percent_encode c)
      +:+ encodeURIComponent rest
  end.

(** The application/x-www-form-urlencoded serializer behind
    [URLSearchParams.prototype.toString]. *)
Definition form_unreserved (c : ascii) : bool := is_alnum c || one_of "*-._" c.

Fixpoint urlencode (s : string) : string :=
  match s with
  | EmptyString => ""
  | String c rest =>
      (if form_unreserved c then String c ""
       else if Ascii.eqb c " " then "+"
       else percent_encode c)
      +:+ urlencode rest
  end.

Fixpoint URLSearchParams_toString (params : list (string * string)) : string :=
  match params with
  | [] => ""
  | [(n, v)] => urlencode n +:+ "=" +:+ urlencode v
  | (n, v) :: rest =>
      urlencode n +:+ "=" +:+ urlencode v +:+ "&" +:+ URLSearchParams_toString rest
  end.

(** GetSubstitution for a string pattern: [$$], [$&], [$`] and [$'] are
    expanded; with no capture groups every other [$] stands for itself. *)
Fixpoint GetSubstitution (matched before after template : string) : string :=
  match template with
  | EmptyString => ""
  | String a t =>
      if Ascii.eqb a "$" then
        match t with
        | String c rest =>
            if Ascii.eqb c "$" then "$" +:+ GetSubstitution matched before after rest
            else if Ascii.eqb c "&" then matched +:+ GetSubstitution matched before after rest
            else if Ascii.eqb c "`" then before +:+ GetSubstitution matched before after rest
            else if Ascii.eqb c "'" then after +:+ GetSubstitution matched before after rest
            else String a (GetSubstitution matched before after t)
        | EmptyString => String a ""
        end
      else String a (GetSubstitution matched before after t)
  end.

(** [s.replace(pattern, replacement)] with a string pattern: the first
    occurrence only. *)
Definition replace (pattern replacement s : string) : string :=
  match index 0 pattern s with
  | None => s
  | Some i =>
      let j := i + String.length pattern in
      let before := substring 0 i s in
      let after := substring j (String.length s - j) s in
      before +:+ GetSubstitution pattern before after replacement +:+ after
  end.

(** [s.trim()]: white space and line terminators, the ASCII ones and the
    UTF-8 forms of U+00A0, U+1680, U+2000 to U+200A, U+2028, U+2029, U+202F,
    U+205F, U+3000 and U+FEFF.  [fwd] reads the bytes of a character first
    to last, [negb fwd] last to first. *)
Definition white1 (a : ascii) : bool := record_js.is_white a.

Definition white2 (fwd : bool) (a b : ascii) : bool :=
  let '(x, y) := if fwd then (a, b) else (b, a) in
  (code x =? 194) && (code y =? 160).

Definition white3 (fwd : bool) (a b c : ascii) : bool :=
  let '(x, y, z) := if fwd then (a, b, c) else (c, b, a) in
  ((code x =? 225) && (code y =? 154) && (code z =? 128))
  || ((code x =? 226) && (code y =? 128)
      && (((128 <=? code z) && (code z <=? 138))
          || (code z =? 168) || (code z =? 169) || (code z =? 175)))
  || ((code x =? 226) && (code y =? 129) && (code z =? 159))
  || ((code x =? 227) && (code y =? 128) && (code z =? 128))
  || ((code x =? 239) && (code y =? 187) && (code z =? 191)).

Fixpoint strip (fwd : bool) (l : list ascii) : list ascii :=
  match l with
  | [] => []
  | a :: r1 =>
      if white1 a then strip fwd r1
      else
        match r1 with
        | [] => l
        | b :: r2 =>
            if white2 fwd a b then strip fwd r2
            else
              match r2 with
              | [] => l
              | c :: r3 => if white3 fwd a b c then strip fwd r3 else l
              end
        end
  end.

Definition trim (s : string) : string :=
  string_of_list_ascii
    (reverse (strip false (reverse (strip true (list_ascii_of_string s))))).

End js_string.

(** ** index.js: the buttons of the plan list *)

Module index_buttons.
Import browser js_string.

(** What a click handler that awaits nothing does. *)
Inductive reaction :=
  | Navigate (href : string)       (* [window.location.href = href] *)
  | ShowAlert (msg : string)
  | Nothing.

(** [btnRecord]: its [data-new-session-url] and its [disabled] flag. *)
Record record_button := RecordButton {
  newSessionUrl : option string;
  disabled : bool;
}.

(** [updateRecordButton], run at load and on every change of the list;
    [None] when the page has no such button. *)
Definition updateRecordButton (d : index_js.doc) (btn : option record_button)
  : option record_button :=
  match btn with
  | None => None
  | Some b =>
      let hasSel := bool_decide (is_Some (index_js.selId d)) in
      Some (RecordButton (newSessionUrl b) (negb hasSel))
  end.

Definition on_record_click (d : index_js.doc) (b : record_button) : reaction :=
  match index_js.selId d with
  | None => Nothing
  | Some id =>
      match truthy (newSessionUrl b) with
      | None => Nothing
      | Some baseUrl => Navigate (baseUrl +:+ "?plan_id=" +:+ encodeURIComponent id)
      end
  end.

(** [progressUrl] is [btnProgress.dataset.progressUrl]. *)
Definition on_progress_click (progressUrl : option string) : reaction :=
  match truthy progressUrl with
  | Some url => Navigate url
  | None => Nothing
  end.

(** [editTemplate] is [btnEdit.dataset.editTemplate]. *)
Definition on_edit_click (d : index_js.doc) (editTemplate : option string) : reaction :=
  match index_js.selId d with
  | None => ShowAlert "Bitte einen Plan in der Liste auswählen."
  | Some id =>
      match truthy editTemplate with
      | None => Nothing
      | Some tmpl => Navigate (replace "0" id tmpl)
      end
  end.

(** The response to the create request, of which [redirected] and [url] are
    read, or a rejection. *)
Inductive create_settled :=
  | CreateFulfilled (redirected : bool) (url : string)
  | CreateRejected.

Inductive add_obs :=
  | APrompt (msg : string) (answer : option string)   (* [None]: cancelled *)
  | AFetch (url body : string) (res : option create_settled)   (* [None]: never settles *)
  | ANavigate (href : string)
  | AReload
  | AAlert (msg : string).

(** The click listener on [btnAdd], against the answer to the prompt and the
    settlement of the request: what the user and the network see of it.
    [createUrl] and [nextUrl] are the data attributes of the button. *)
Definition on_add_click (createUrl nextUrl : option string)
    (answer : option string) (settle : option create_settled) : list add_obs :=
  let name := trim (default "" (truthy answer)) in
  APrompt "Name des neuen Plans:" answer ::
  match truthy (Some name) with
  | None => []
  | Some name =>
      match truthy createUrl with
      | None => []
      | Some url =>
          let form := [("name", name); ("next", default "" (truthy nextUrl))] in
          AFetch url (URLSearchParams_toString form) settle ::
          match settle with
          | None => []
          | Some (CreateFulfilled redirected res_url) =>
              if redirected then [ANavigate res_url] else [AReload]
          | Some CreateRejected => [AAlert "Anlegen fehlgeschlagen."]
          end
      end
  end.

End index_buttons.

(** ** The progress page script *)

Module progress_js.
Import browser js_string.

(** The page: the data attributes of [#progressPage], the values of the
    three selects and the [style.display] of the two groups ([None] for an
    element the page lacks), and the address last assigned to
    [window.location.href] ([None]: none assigned). *)
Record page := Page {
  homeUrl : option string;
  overviewUrl : option string;
  planPngTemplate : option string;
  exercisePngTemplate : option string;
  diagramTypeSelect : option string;
  planSelect : option string;
  exerciseSelect : option string;
  planGroup : option string;
  exerciseGroup : option string;
  location : option string;
}.

Definition set_location (href : string) (p : page) : page :=
  Page (homeUrl p) (overviewUrl p) (planPngTemplate p) (exercisePngTemplate p)
       (diagramTypeSelect p) (planSelect p) (exerciseSelect p)
       (planGroup p) (exerciseGroup p) (Some href).

(** [if (group) group.style.display = v] for both groups. *)
Definition set_display (plan_display exercise_display : string) (p : page) : page :=
  Page (homeUrl p) (overviewUrl p) (planPngTemplate p) (exercisePngTemplate p)
       (diagramTypeSelect p) (planSelect p) (exerciseSelect p)
       ((λ _, plan_display) <$> planGroup p)
       ((λ _, exercise_display) <$> exerciseGroup p)
       (location p).

Definition goHome (p : page) : page :=
  match truthy (homeUrl p) with
  | Some url => set_location url p
  | None => p
  end.

(** The entries [navigate] sets on its [URLSearchParams]. *)
Definition navigate_params (diagramType : string) (planId exerciseId : option string)
  : list (string * string) :=
  (if decide (diagramType = "") then [] else [("diagram_type", diagramType)])
  ++ match (if decide (diagramType = "plan") then truthy planId else None) with
     | Some id => [("plan_id", id)]
     | None =>
         match (if decide (diagramType = "exercise") then truthy exerciseId else None) with
         | Some id => [("exercise_id", id)]
         | None => []
         end
     end.

Definition navigate (diagramType : string) (planId exerciseId : option string)
    (p : page) : page :=
  match truthy (overviewUrl p) with
  | None => p
  | Some url =>
      let query := URLSearchParams_toString (navigate_params diagramType planId exerciseId) in
      set_location (if decide (query = "") then url else url +:+ "?" +:+ query) p
  end.

(** The change listeners; each exists only when its select does. *)
Definition on_diagramType_change (p : page) : page :=
  match diagramTypeSelect p with
  | None => p
  | Some type =>
      if decide (type = "plan") then
        navigate "plan" (Some (default "" (planSelect p))) None (set_display "" "none" p)
      else
        navigate "exercise" None (Some (default "" (exerciseSelect p)))
                 (set_display "none" "" p)
  end.

Definition on_planSelect_change (p : page) : page :=
  match planSelect p with
  | None => p
  | Some value => navigate (default "plan" (diagramTypeSelect p)) (Some value) None p
  end.

Definition on_exerciseSelect_change (p : page) : page :=
  match exerciseSelect p with
  | None => p
  | Some value => navigate (default "exercise" (diagramTypeSelect p)) None (Some value) p
  end.

(** The click listener on [btnExport]. *)
Definition on_export_click (p : page) : page :=
  if decide (default "plan" (diagramTypeSelect p) = "plan") then
    match truthy (Some (default "" (planSelect p))), truthy (planPngTemplate p) with
    | Some pid, Some tmpl => set_location (replace "0" pid tmpl +:+ "?download=1") p
    | _, _ => p
    end
  else
    match truthy (Some (default "" (exerciseSelect p))), truthy (exercisePngTemplate p) with
    | Some eid, Some tmpl => set_location (replace "0" eid tmpl +:+ "?download=1") p
    | _, _ => p
    end.

End progress_js.

(** ** Vocabulary for the string built-ins *)

Module string_spec.
Import js_string.

Definition hex_value (c : ascii) : option nat :=
  let n := code c in
  if (48 <=? n) && (n <=? 57) then Some (n - 48)
  else if (65 <=? n) && (n <=? 70) then Some (n - 55)
  else if (97 <=? n) && (n <=? 102) then Some (n - 87)
  else None.

(** Reading percent escapes back; with [plus], a [+] is a space as well. *)
Fixpoint percent_decode (plus : bool) (s : string) : string :=
  match s with
  | EmptyString => ""
  | String c t =>
      if Ascii.eqb c "%" then
        match t with
        | String a (String b rest) =>
            match hex_value a, hex_value b with
            | Some x, Some y => String (ascii_of_nat (16 * x + y)) (percent_decode plus rest)
            | _, _ => String c (percent_decode plus t)
            end
        | _ => String c (percent_decode plus t)
        end
      else if plus && Ascii.eqb c "+" then String " " (percent_decode plus t)
      else String c (percent_decode plus t)
  end.

(** The characters that structure a URL and its query. *)
Definition delimiter (c : ascii) : bool := one_of "&=?#/ " c.

(** The character [c] occurs in [s]. *)
Fixpoint occurs (c : ascii) (s : string) : bool :=
  match s with
  | EmptyString => false
  | String a rest => Ascii.eqb a c || occurs c rest
  end.

End string_spec.

(* ================================================================== *)
(** * Theorems *)
(* ================================================================== *)

(** ** The models at work *)

Section examples.
Import edit_js record_js.

Example load_numbers_the_rows :
  position <$> children (load [Tr 4 true false "x" (Some "");
                               Tr 9 false false "" None;
                               Tr 5 true false "y" None;
                               Tr 6 true false "z" (Some "17")])
  = [Some "1"; None; None; Some "3"].
Proof. reflexivity. Qed.

(** Without the top-to-bottom layout the reduce goes for the nearest
    midpoint below the pointer, not for the first row in document order. *)
Example nearest_midpoint_wins :
  getDragAfterElement (scenario.stacked [2; 0; 1])
                      [scenario.A; scenario.B; scenario.C] 5
  = Some 2.
Proof. by vm_compute. Qed.

Example Number_decimal : StringToNumber " 12.5e1 " = Num 125.
Proof. by vm_compute. Qed.

Example Number_tenth :
  StringToNumber "0.1" = Num (3602879701896397 # 36028797018963968).
Proof. by vm_compute. Qed.

Example Number_hex : StringToNumber "0x1F" = Num 31 ∧ StringToNumber "-0x1F" = NaN.
Proof. by vm_compute. Qed.

Example Number_ties_to_even : StringToNumber "9007199254740993" = Num 9007199254740992.
Proof. by vm_compute. Qed.

Example Number_overflow :
  StringToNumber "1e400" = PosInf ∧ StringToNumber "-Infinity" = NegInf.
Proof. by vm_compute. Qed.

Example Number_not_a_number :
  StringToNumber "." = NaN ∧ StringToNumber "1e" = NaN ∧ StringToNumber "-" = NaN
  ∧ StringToNumber "12px" = NaN.
Proof. by vm_compute. Qed.

Example other_fields_untouched :
  on_input (Some (Element (Some "ex[3][reps]") "150"))
  = Some (Element (Some "ex[3][reps]") "150").
Proof. reflexivity. Qed.

End examples.

Section table_facts.
Import edit_js spec.

Implicit Types (c : list tr) (n : tr) (p : page) (k i : nat).

(** ** Nodes reached through their key *)

Lemma key_set_dragging b n : key (set_dragging b n) = key n.
Proof. done. Qed.

Lemma key_set_position_value v n : key (set_position_value v n) = key n.
Proof. unfold set_position_value. by destruct (position n). Qed.

Lemma update_node_fresh k f c : k ∉ key <$> c → update_node k f c = c.
Proof.
  induction c as [|n c IH]; simpl; [done|].
  rewrite not_elem_of_cons. intros [Hk Hc].
  unfold update_node in *. simpl. rewrite decide_False by done.
  f_equal. by apply IH.
Qed.

Lemma update_node_app k f c1 c2 :
  update_node k f (c1 ++ c2) = update_node k f c1 ++ update_node k f c2.
Proof. unfold update_node. apply fmap_app. Qed.

Lemma update_node_keys k f c :
  (∀ n, key (f n) = key n) → key <$> update_node k f c = key <$> c.
Proof.
  intros Hf. unfold update_node. rewrite <- list_fmap_compose.
  apply list_fmap_ext. intros _ n _. simpl. by case_decide.
Qed.

(** ** [updatePositions] numbers the rows from the top *)

Lemma update_node_cons k f n c :
  update_node k f (n :: c)
  = (if decide (key n = k) then f n else n) :: update_node k f c.
Proof. done. Qed.

Lemma updatePositions_go c1 c2 i :
  (∀ n, n ∈ c2 → key n ∉ key <$> c1) →
  NoDup (key <$> c2) →
  foldl (λ c '(i, row), update_node (key row) (set_position_value (pretty (i + 1))) c)
        (c1 ++ c2)
        (imap (λ j row, (i + j, row)) (querySelectorAll sel_row c2))
  = c1 ++ renumber i c2.
Proof.
  set (step := λ c '(i, row),
         update_node (key row) (set_position_value (pretty (i + 1))) c).
  revert c1 i. induction c2 as [|n c2 IH]; intros c1 i Hfresh Hnd; [done|].
  rewrite fmap_cons in Hnd. apply NoDup_cons in Hnd as [Hn Hnd].
  assert (Hfresh' : ∀ x, key x = key n → ∀ m, m ∈ c2 → key m ∉ key <$> (c1 ++ [x])).
  { intros x Hx m Hm. rewrite fmap_app, elem_of_app, fmap_cons, list_elem_of_singleton.
    intros [Hin|Heq].
    - eapply Hfresh; [|exact Hin]. by right.
    - apply Hn. rewrite <- Hx, <- Heq. by apply list_elem_of_fmap_2. }
  unfold querySelectorAll in *. rewrite filter_cons.
  cbn [renumber]. destruct (dnd_row n) eqn:Hrow.
  - rewrite decide_True by (unfold sel_row; by rewrite Hrow).
    rewrite imap_cons. cbn [foldl]. unfold step at 2.
    rewrite update_node_app, update_node_cons, decide_True by done.
    rewrite update_node_fresh by (apply Hfresh; by left).
    rewrite update_node_fresh by done.
    rewrite (imap_ext _ (λ j row, (S i + j, row))).
    2:{ intros j x _. simpl. f_equal. lia. }
    replace (i + 0 + 1) with (i + 1) by lia.
    rewrite (cons_middle _ c1 (renumber _ _)), (cons_middle _ c1 c2), !app_assoc.
    apply IH; [|done]. apply Hfresh', key_set_position_value.
  - rewrite decide_False by (unfold sel_row; rewrite Hrow; simpl; tauto).
    rewrite (cons_middle _ c1 (renumber _ _)), (cons_middle _ c1 c2), !app_assoc.
    apply IH; [|done]. by apply Hfresh'.
Qed.

Lemma updatePositions_renumber c :
  NoDup (key <$> c) → updatePositions c = renumber 0 c.
Proof.
  intros Hnd. unfold updatePositions.
  apply (updatePositions_go [] c 0); [|done].
  intros n _. simpl. apply not_elem_of_nil.
Qed.

Lemma dnd_row_set_position_value v n : dnd_row (set_position_value v n) = dnd_row n.
Proof. unfold set_position_value. by destruct (position n). Qed.

Lemma exercise_id_set_position_value v n :
  exercise_id (set_position_value v n) = exercise_id n.
Proof. unfold set_position_value. by destruct (position n). Qed.

Lemma position_set_position_value v n :
  position (set_position_value v n) = (λ _, v) <$> position n.
Proof. by destruct n as [k r d e [w|]]. Qed.

Lemma set_position_value_same v n :
  (∀ w, position n = Some w → w = v) → set_position_value v n = n.
Proof.
  unfold set_position_value. destruct n as [k r d e [w|]]; simpl; [|done].
  intros H. by rewrite (H w eq_refl).
Qed.

Lemma renumber_keys i c : key <$> renumber i c = key <$> c.
Proof.
  revert i. induction c as [|n c IH]; intros i; [done|].
  simpl. destruct (dnd_row n); rewrite !fmap_cons, IH; [|done].
  by rewrite key_set_position_value.
Qed.

Lemma rows_cons n c :
  rows (n :: c) = if dnd_row n then n :: rows c else rows c.
Proof.
  unfold rows, querySelectorAll. destruct (dnd_row n) eqn:Hrow.
  - apply filter_cons_True. unfold sel_row. by rewrite Hrow.
  - apply filter_cons_False. unfold sel_row. rewrite Hrow. simpl. tauto.
Qed.

Lemma rows_renumber i c : rows (renumber i c) = renumber i (rows c).
Proof.
  revert i. induction c as [|n c IH]; intros i; [done|].
  simpl. rewrite rows_cons. destruct (dnd_row n) eqn:Hrow.
  - rewrite rows_cons, dnd_row_set_position_value, Hrow, IH. simpl. by rewrite Hrow.
  - by rewrite rows_cons, Hrow, IH.
Qed.

Lemma rows_all_rows c : Forall (λ n, dnd_row n = true) (rows c).
Proof.
  apply Forall_forall. intros n Hn. unfold rows, querySelectorAll in Hn.
  apply list_elem_of_filter in Hn as [Hn _]. unfold sel_row in Hn.
  by destruct (dnd_row n).
Qed.

Lemma renumber_lookup i l j :
  Forall (λ n, dnd_row n = true) l →
  renumber i l !! j = set_position_value (pretty (i + j + 1)) <$> l !! j.
Proof.
  intros Hl. revert i j. induction Hl as [|n l Hn Hl IH]; intros i j; [done|].
  simpl. rewrite Hn. destruct j as [|j]; simpl.
  - by replace (i + 0 + 1) with (i + 1) by lia.
  - rewrite IH. by replace (S i + j + 1) with (i + S j + 1) by lia.
Qed.

Lemma rows_renumber_lookup i c j :
  rows (renumber i c) !! j = set_position_value (pretty (i + j + 1)) <$> rows c !! j.
Proof. rewrite rows_renumber. apply renumber_lookup, rows_all_rows. Qed.

Lemma row_ids_renumber i c : row_ids (renumber i c) = row_ids c.
Proof.
  unfold row_ids. apply list_eq. intros j.
  rewrite !list_lookup_fmap, rows_renumber_lookup.
  destruct (rows c !! j) as [n|]; simpl; [|done].
  by rewrite key_set_position_value, exercise_id_set_position_value.
Qed.

Lemma renumber_in_sync c : positions_in_sync (renumber 0 c).
Proof.
  intros j r v Hr Hv. rewrite rows_renumber_lookup in Hr.
  destruct (rows c !! j) as [n|]; simplify_eq/=.
  rewrite position_set_position_value in Hv.
  destruct (position n); by simplify_eq/=.
Qed.

Lemma renumber_fixed i c :
  (∀ j r v, rows c !! j = Some r → position r = Some v → v = pretty (i + j + 1)) →
  renumber i c = c.
Proof.
  revert i. induction c as [|n c IH]; intros i Hsync; [done|].
  simpl. rewrite rows_cons in Hsync. destruct (dnd_row n) eqn:Hrow.
  - f_equal.
    + apply set_position_value_same. intros w Hw.
      rewrite (Hsync 0 n w eq_refl Hw). f_equal. lia.
    + apply IH. intros j r v Hr Hv.
      rewrite (Hsync (S j) r v Hr Hv). f_equal. lia.
  - f_equal. by apply IH.
Qed.

Lemma in_sync_renumber c : positions_in_sync c → renumber 0 c = c.
Proof. intros Hsync. apply renumber_fixed. intros j r v Hr Hv. by apply (Hsync j r v). Qed.

(** ** Selecting and moving nodes *)

Lemma querySelector_Some sel c d :
  querySelector sel c = Some d → d ∈ c ∧ sel d = true.
Proof.
  unfold querySelector, querySelectorAll. intros Hd.
  apply head_Some_elem_of, list_elem_of_filter in Hd as [Hs Hd].
  split; [done|]. by destruct (sel d).
Qed.

Lemma candidates_elem c n :
  n ∈ candidates c ↔ n ∈ c ∧ dnd_row n = true ∧ is_dragging n = false.
Proof.
  unfold candidates, querySelectorAll. rewrite list_elem_of_filter.
  unfold sel_row_not_dragging.
  destruct (dnd_row n), (is_dragging n); simpl; intuition congruence.
Qed.

Lemma reducer_element rect y cl child :
  element (reducer rect y cl child) = element cl
  ∨ element (reducer rect y cl child) = Some (key child).
Proof. unfold reducer. case_match; auto. Qed.

Lemma foldl_reducer_element rect y els cl a :
  element (foldl (reducer rect y) cl els) = Some a →
  element cl = Some a ∨ ∃ n, n ∈ els ∧ key n = a.
Proof.
  revert cl. induction els as [|n els IH]; intros cl; simpl; [auto|].
  intros Ha. destruct (IH _ Ha) as [Hcl|(m & Hm & Hk)].
  - destruct (reducer_element rect y cl n) as [He|He]; rewrite He in Hcl.
    + auto.
    + right. exists n. split; [by left | congruence].
  - right. exists m. split; [by right | done].
Qed.

Lemma getDragAfterElement_Some rect c y a :
  getDragAfterElement rect c y = Some a → ∃ n, n ∈ candidates c ∧ key n = a.
Proof.
  unfold getDragAfterElement. intros Ha.
  by apply foldl_reducer_element in Ha as [?|?].
Qed.

Lemma getDragAfterElement_no_candidates rect c y :
  candidates c = [] → getDragAfterElement rect c y = None.
Proof. unfold getDragAfterElement, candidates. by intros ->. Qed.

Lemma without_cons k n c :
  without k (n :: c) = if decide (key n = k) then without k c else n :: without k c.
Proof.
  unfold without. rewrite filter_cons.
  destruct (decide (key n = k)); [by rewrite decide_False by auto | by rewrite decide_True].
Qed.

Lemma without_fresh k c : k ∉ key <$> c → without k c = c.
Proof.
  induction c as [|n c IH]; [done|].
  rewrite fmap_cons, not_elem_of_cons, without_cons. intros [Hk Hc].
  rewrite decide_False by done. f_equal. by apply IH.
Qed.

Lemma without_split c d :
  NoDup (key <$> c) → d ∈ c →
  ∃ l1 l2, c = l1 ++ d :: l2 ∧ without (key d) c = l1 ++ l2.
Proof.
  intros Hnd Hd. apply list_elem_of_split in Hd as (l1 & l2 & ->).
  exists l1, l2. split; [done|].
  rewrite fmap_app, fmap_cons in Hnd.
  apply NoDup_app in Hnd as (_ & Hdisj & Hnd2). apply NoDup_cons in Hnd2 as [Hd2 _].
  unfold without. rewrite filter_app. fold (without (key d) l1) (without (key d) (d :: l2)).
  rewrite without_cons, decide_True by done.
  rewrite !without_fresh; [done | done |].
  intros Hin. apply (Hdisj _ Hin). by left.
Qed.

Lemma without_perm c d :
  NoDup (key <$> c) → d ∈ c → c ≡ₚ d :: without (key d) c.
Proof.
  intros Hnd Hd. destruct (without_split c d Hnd Hd) as (l1 & l2 & -> & ->).
  by rewrite Permutation_middle.
Qed.

Lemma without_elem k c n : n ∈ without k c ↔ key n ≠ k ∧ n ∈ c.
Proof. unfold without. by rewrite list_elem_of_filter. Qed.

Lemma insert_at_split node ref l :
  ref ∈ key <$> l →
  ∃ l1 t l2, l = l1 ++ t :: l2 ∧ key t = ref ∧ (ref ∉ key <$> l1)
             ∧ insert_at node ref l = l1 ++ node :: t :: l2.
Proof.
  induction l as [|x l IH]; simpl.
  - by intros ?%elem_of_nil.
  - intros Hin. destruct (decide (key x = ref)) as [Hx|Hx].
    + exists [], x, l. split_and!; [done | done | apply not_elem_of_nil | done].
    + apply elem_of_cons in Hin as [Hin|Hin]; [congruence|].
      destruct (IH Hin) as (l1 & t & l2 & -> & Ht & Hl1 & ->).
      exists (x :: l1), t, l2. split_and!; [done | done | | done].
      rewrite fmap_cons, not_elem_of_cons. auto.
Qed.

Lemma insert_at_perm node ref l :
  ref ∈ key <$> l → insert_at node ref l ≡ₚ node :: l.
Proof.
  intros Hin. destruct (insert_at_split node ref l Hin) as (l1 & t & l2 & -> & _ & _ & ->).
  by rewrite <- Permutation_middle.
Qed.

(** [dragover] always completes normally, keeps [dragEl], and on a
    well-formed table only rearranges the children. *)
Lemma on_dragover_normal y rect p :
  ∃ c', on_dragover y rect p = Normal (Page c' (dragEl p))
        ∧ (NoDup (key <$> children p) → c' ≡ₚ children p).
Proof.
  unfold on_dragover. destruct p as [c dr]; simpl.
  destruct (querySelector sel_row_dragging c) as [d|] eqn:Hd; [|by exists c].
  apply querySelector_Some in Hd as [Hd Hsel].
  destruct (getDragAfterElement rect c y) as [a|] eqn:Ha.
  - apply getDragAfterElement_Some in Ha as (n & Hn & Hk).
    apply candidates_elem in Hn as (Hn & _ & _).
    unfold insertBefore. rewrite decide_True.
    2:{ rewrite <- Hk. by apply list_elem_of_fmap_2. }
    destruct (decide (a = key d)) as [Had|Had]; simpl; [by exists c|].
    eexists. split; [done|]. intros Hnd.
    rewrite insert_at_perm.
    + symmetry. by apply without_perm.
    + rewrite <- Hk. apply list_elem_of_fmap_2, without_elem. split; [congruence|done].
  - eexists. split; [done|]. intros Hnd. unfold appendChild.
    rewrite <- Permutation_cons_append. symmetry. by apply without_perm.
Qed.

(** ** What each handler keeps *)

Lemma rows_update_node k f c :
  (∀ n, dnd_row (f n) = dnd_row n) →
  rows (update_node k f c) = update_node k f (rows c).
Proof.
  intros Hf. induction c as [|n c IH]; [done|].
  rewrite update_node_cons, !rows_cons.
  replace (dnd_row (if decide (key n = k) then f n else n)) with (dnd_row n)
    by (by case_decide).
  destruct (dnd_row n); by rewrite IH.
Qed.

Lemma row_ids_update_node k f c :
  (∀ n, dnd_row (f n) = dnd_row n) →
  (∀ n, key (f n) = key n) →
  (∀ n, exercise_id (f n) = exercise_id n) →
  row_ids (update_node k f c) = row_ids c.
Proof.
  intros H1 H2 H3. unfold row_ids. rewrite rows_update_node by done.
  unfold update_node. rewrite <- list_fmap_compose.
  apply list_fmap_ext. intros _ n _. simpl. case_decide; by rewrite ?H2, ?H3.
Qed.

Lemma positions_update_node k b c :
  position <$> update_node k (set_dragging b) c = position <$> c.
Proof.
  unfold update_node. rewrite <- list_fmap_compose.
  apply list_fmap_ext. intros _ n _. simpl. by case_decide.
Qed.

Lemma row_ids_perm c c' : c ≡ₚ c' → row_ids c ≡ₚ row_ids c'.
Proof. intros H. unfold row_ids, rows, querySelectorAll. by rewrite H. Qed.

Lemma settled_children_keys p : key <$> settled_children p = key <$> children p.
Proof.
  unfold settled_children. destruct (dragEl p); [|done].
  by apply update_node_keys.
Qed.

Lemma settled_children_row_ids p : row_ids (settled_children p) = row_ids (children p).
Proof.
  unfold settled_children. destruct (dragEl p); [|done].
  by apply row_ids_update_node.
Qed.

Lemma on_dragend_children p :
  NoDup (key <$> children p) →
  children (on_dragend p) = renumber 0 (settled_children p).
Proof.
  intros Hnd. unfold on_dragend. cbn [children].
  apply updatePositions_renumber. fold (settled_children p).
  by rewrite settled_children_keys.
Qed.

Lemma on_dragstart_children target p :
  key <$> children (on_dragstart target p) = key <$> children p
  ∧ row_ids (children (on_dragstart target p)) = row_ids (children p)
  ∧ position <$> children (on_dragstart target p) = position <$> children p.
Proof.
  unfold on_dragstart. destruct (closest_row target (children p)); [|done].
  cbn [children]. split_and!.
  - by apply update_node_keys.
  - by apply row_ids_update_node.
  - apply positions_update_node.
Qed.

(** Every handler completes normally; on a well-formed table it keeps the
    table well formed and keeps the rows. *)
Lemma handle_normal ev p :
  ∃ p', handle ev p = Normal p'
        ∧ (NoDup (key <$> children p) →
           NoDup (key <$> children p')
           ∧ row_ids (children p') ≡ₚ row_ids (children p)).
Proof.
  destruct ev as [target|y rect|]; simpl.
  - eexists. split; [done|]. intros Hnd.
    destruct (on_dragstart_children target p) as (Hk & Hr & _).
    by rewrite Hk, Hr.
  - destruct (on_dragover_normal y rect p) as (c' & -> & Hperm).
    eexists. split; [done|]. intros Hnd. specialize (Hperm Hnd). cbn [children].
    split; [by rewrite Hperm | by apply row_ids_perm].
  - eexists. split; [done|]. intros Hnd.
    rewrite on_dragend_children by done.
    by rewrite renumber_keys, settled_children_keys, row_ids_renumber,
      settled_children_row_ids.
Qed.

Lemma dispatch_normal evs p :
  ∃ p', dispatch evs p = Normal p'
        ∧ (NoDup (key <$> children p) →
           NoDup (key <$> children p')
           ∧ row_ids (children p') ≡ₚ row_ids (children p)).
Proof.
  revert p. induction evs as [|ev evs IH]; intros p; simpl.
  - by exists p.
  - destruct (handle_normal ev p) as (p1 & -> & H1). simpl.
    destruct (IH p1) as (p2 & -> & H2).
    exists p2. split; [done|]. intros Hnd.
    destruct (H1 Hnd) as [Hnd1 Hr1]. destruct (H2 Hnd1) as [Hnd2 Hr2].
    split; [done|]. by rewrite Hr2.
Qed.

Lemma dispatch_app evs1 evs2 p :
  dispatch (evs1 ++ evs2) p = cbind (dispatch evs1 p) (dispatch evs2).
Proof.
  revert p. induction evs1 as [|ev evs1 IH]; intros p; simpl; [done|].
  destruct (handle ev p); simpl; [apply IH | done].
Qed.

(** ** Positions that follow the visual order *)



(** ** The same nodes in the same places *)

Lemma NoDup_key_inj c n m :
  NoDup (key <$> c) → n ∈ c → m ∈ c → key n = key m → n = m.
Proof.
  induction c as [|x c IH]; [by intros _ ?%elem_of_nil|].
  rewrite fmap_cons, NoDup_cons, !elem_of_cons. intros [Hx Hnd] Hn Hm Hk.
  destruct Hn as [->|Hn], Hm as [->|Hm]; [done | | | by apply IH].
  - destruct Hx. rewrite Hk. by apply list_elem_of_fmap_2.
  - destruct Hx. rewrite <- Hk. by apply list_elem_of_fmap_2.
Qed.

Lemma perm_same_keys c c' :
  c ≡ₚ c' → NoDup (key <$> c) → key <$> c = key <$> c' → c = c'.
Proof.
  intros Hperm Hnd Hkeys. apply list_eq. intros i.
  pose proof (f_equal (λ l, l !! i) Hkeys) as Hi. simpl in Hi.
  rewrite !list_lookup_fmap in Hi.
  destruct (c !! i) as [n|] eqn:Hn, (c' !! i) as [m|] eqn:Hm; simplify_eq/=; [|done].
  f_equal. apply (NoDup_key_inj c); [done | | | done].
  - by eapply list_elem_of_lookup_2.
  - rewrite Hperm. by eapply list_elem_of_lookup_2.
Qed.

Lemma dispatch_dragovers overs p :
  ∃ p', dispatch (uncurry DragOver <$> overs) p = Normal p'
        ∧ dragEl p' = dragEl p
        ∧ (NoDup (key <$> children p) → children p' ≡ₚ children p).
Proof.
  revert p. induction overs as [|[y rect] overs IH]; intros p; [by exists p|].
  rewrite fmap_cons. cbn [dispatch uncurry handle].
  destruct (on_dragover_normal y rect p) as (c1 & -> & Hperm1). simpl.
  destruct (IH (Page c1 (dragEl p))) as (p2 & -> & Hdr & Hperm2).
  exists p2. split_and!; [done | done |].
  intros Hnd. specialize (Hperm1 Hnd). cbn [children] in Hperm2.
  rewrite Hperm2; [done|]. by rewrite Hperm1.
Qed.

Lemma update_node_lookup k f c i :
  update_node k f c !! i = (λ n, if decide (key n = k) then f n else n) <$> c !! i.
Proof. unfold update_node. apply list_lookup_fmap. Qed.

Lemma in_sync_update_node k b c :
  positions_in_sync c → positions_in_sync (update_node k (set_dragging b) c).
Proof.
  intros Hsync i r v. rewrite rows_update_node by done. rewrite update_node_lookup.
  destruct (rows c !! i) as [n|] eqn:Hn; [|done]. simpl. intros [= <-] Hv.
  apply (Hsync i n v Hn). by case_decide.
Qed.

Lemma in_sync_settled p :
  positions_in_sync (children p) → positions_in_sync (settled_children p).
Proof.
  unfold settled_children. destruct (dragEl p); [|done]. apply in_sync_update_node.
Qed.

(** After loading, and after every [dragend], the table is well formed and
    its positions follow the visual order. *)
Lemma quiescent_in_sync rendered history p :
  NoDup (key <$> rendered) →
  dispatch history (load rendered) = Normal p →
  history = [] ∨ last history = Some DragEnd →
  NoDup (key <$> children p) ∧ positions_in_sync (children p).
Proof.
  intros Hnd Hrun Hq.
  assert (Hload : NoDup (key <$> children (load rendered))).
  { unfold load. cbn [children]. by rewrite updatePositions_renumber, renumber_keys. }
  destruct Hq as [->|Hlast].
  - simplify_eq/=. split; [done|].
    rewrite updatePositions_renumber by done. apply renumber_in_sync.
  - apply last_Some in Hlast as [h ->]. rewrite dispatch_app in Hrun.
    destruct (dispatch_normal h (load rendered)) as (p1 & Hp1 & H1).
    rewrite Hp1 in Hrun. destruct (H1 Hload) as [Hnd1 _].
    cbn [cbind dispatch handle] in Hrun. injection Hrun as <-.
    rewrite on_dragend_children by done. split.
    + by rewrite renumber_keys, settled_children_keys.
    + apply renumber_in_sync.
Qed.

(** ** Reading a position through the key *)

Lemma filter_key_elem c n :
  NoDup (key <$> c) → n ∈ c → filter (λ m, key m = key n) c = [n].
Proof.
  intros Hnd Hn. apply list_elem_of_split in Hn as (l1 & l2 & ->).
  rewrite fmap_app, fmap_cons in Hnd.
  apply NoDup_app in Hnd as (_ & Hdisj & Hnd2). apply NoDup_cons in Hnd2 as [Hn2 _].
  rewrite filter_app, filter_cons_True by done.
  assert (Hnone : ∀ l, key n ∉ key <$> l → filter (λ m, key m = key n) l = []).
  { intros l Hl. induction l as [|x l IH]; [done|].
    rewrite fmap_cons, not_elem_of_cons in Hl. destruct Hl as [Hx Hl].
    rewrite filter_cons_False by congruence. by apply IH. }
  rewrite !Hnone; [done | done |].
  intros Hin. apply (Hdisj _ Hin). by left.
Qed.

Lemma position_of_elem c n :
  NoDup (key <$> c) → n ∈ c → position_of (key n) c = Some (position n).
Proof. intros Hnd Hn. unfold position_of. by rewrite filter_key_elem. Qed.

Lemma position_of_fresh c k : k ∉ key <$> c → position_of k c = None.
Proof.
  intros Hk. unfold position_of.
  destruct (filter (λ n, key n = k) c) as [|n l] eqn:Hf; [done|].
  assert (Hn : n ∈ filter (λ n, key n = k) c) by (rewrite Hf; by left).
  apply list_elem_of_filter in Hn as [<- Hn]. destruct Hk. by apply list_elem_of_fmap_2.
Qed.

Lemma position_of_perm c c' k :
  NoDup (key <$> c) → c ≡ₚ c' → position_of k c = position_of k c'.
Proof.
  intros Hnd Hperm.
  assert (Hnd' : NoDup (key <$> c')) by (by rewrite <- Hperm).
  destruct (decide (k ∈ key <$> c)) as [Hk|Hk].
  - apply list_elem_of_fmap in Hk as (n & -> & Hn).
    rewrite !position_of_elem; [done | done | by rewrite <- Hperm | done | done].
  - rewrite !position_of_fresh; [done | by rewrite <- Hperm | done].
Qed.

Lemma position_of_update_node c k k' b :
  position_of k (update_node k' (set_dragging b) c) = position_of k c.
Proof.
  unfold position_of. induction c as [|n c IH]; [done|].
  rewrite update_node_cons.
  set (n' := if decide (key n = k') then set_dragging b n else n).
  assert (Hn' : key n' = key n ∧ position n' = position n)
    by (unfold n'; by case_decide).
  destruct Hn' as [Hkey Hpos].
  destruct (decide (key n = k)) as [Hk|Hk].
  - rewrite !filter_cons_True by congruence. simpl. by rewrite Hpos.
  - by rewrite !filter_cons_False by congruence.
Qed.

Lemma positions_settled p : position <$> settled_children p = position <$> children p.
Proof.
  unfold settled_children. destruct (dragEl p); [|done]. apply positions_update_node.
Qed.

Lemma in_sync_on_dragstart target p :
  positions_in_sync (children p) → positions_in_sync (children (on_dragstart target p)).
Proof.
  unfold on_dragstart. destruct (closest_row target (children p)); [|done].
  apply in_sync_update_node.
Qed.

Lemma rows_without k c : rows (without k c) = without k (rows c).
Proof.
  unfold rows, without, querySelectorAll. rewrite !list_filter_filter.
  apply list_filter_iff. tauto.
Qed.

Lemma dragging_rows c :
  querySelectorAll sel_row_dragging c = filter (λ n, is_dragging n) (rows c).
Proof.
  unfold rows, querySelectorAll. rewrite list_filter_filter.
  apply list_filter_iff. intros n. unfold sel_row_dragging, sel_row.
  destruct (dnd_row n), (is_dragging n); simpl; tauto.
Qed.

Lemma candidates_rows c :
  candidates c = filter (λ n, negb (is_dragging n)) (rows c).
Proof.
  unfold candidates, rows, querySelectorAll. rewrite list_filter_filter.
  apply list_filter_iff. intros n. unfold sel_row_not_dragging, sel_row.
  destruct (dnd_row n), (is_dragging n); simpl; tauto.
Qed.

End table_facts.

Section pointer_facts.
Import edit_js spec.

Implicit Types (c : list tr) (n : tr) (p : page).








End pointer_facts.

Section claims_reorder.
Import edit_js spec.





(** C7.  From the loaded page, or from the page as any completed drag left
    it, a drag whose [dragover] events leave every row at the place it had
    leaves, after [dragend], every node where it was with the position
    value it had, whatever the number of rows. *)
Theorem null_drag_keeps_positions
    (rendered : list tr) (history : list event) (p : page)
    (target : nat) (overs : list (Q * (nat → DOMRect))) (p2 : page) :
  NoDup (key <$> rendered) →
  dispatch history (load rendered) = Normal p →
  history = [] ∨ last history = Some DragEnd →
  dispatch (DragStart target :: (uncurry DragOver <$> overs)) p = Normal p2 →
  key <$> children p2 = key <$> children p →
  ∃ p3, handle DragEnd p2 = Normal p3
        ∧ key <$> children p3 = key <$> children p
        ∧ position <$> children p3 = position <$> children p.
Proof.
  intros Hnd0 Hhist Hq Hdrag Hsame.
  destruct (quiescent_in_sync _ _ _ Hnd0 Hhist Hq) as [Hnd Hsync].
  cbn [dispatch handle cbind] in Hdrag.
  destruct (on_dragstart_children target p) as (Hk1 & _ & Hpos1).
  pose proof (in_sync_on_dragstart target p Hsync) as Hsync1.
  set (p1 := on_dragstart target p) in *.
  destruct (dispatch_dragovers overs p1) as (p2' & Hrun & _ & Hperm).
  rewrite Hrun in Hdrag. injection Hdrag as ->.
  assert (Hnd1 : NoDup (key <$> children p1)) by (by rewrite Hk1).
  assert (Hc : children p2 = children p1).
  { apply perm_same_keys; [by apply Hperm | | congruence].
    rewrite Hsame. done. }
  assert (Hnd2 : NoDup (key <$> children p2)) by (by rewrite Hc).
  exists (on_dragend p2). split; [done|].
  rewrite on_dragend_children by done.
  rewrite in_sync_renumber by (apply in_sync_settled; by rewrite Hc).
  rewrite settled_children_keys, positions_settled, Hc. done.
Qed.

Lemma null_drag_keeps_positions_witness :
  let rendered := [scenario.A; scenario.B; scenario.C] in
  let p := load rendered in
  let overs := [(25%Q, scenario.stacked [0; 1; 2])] in
  let p2 := Page [set_dragging true scenario.A; scenario.B; scenario.C] (Some 0) in
  NoDup (key <$> rendered)
  ∧ dispatch (DragStart 0 :: (uncurry DragOver <$> overs)) p = Normal p2
  ∧ key <$> children p2 = key <$> children p
  ∧ ∃ p3, handle DragEnd p2 = Normal p3
          ∧ key <$> children p3 = key <$> children p
          ∧ position <$> children p3 = position <$> children p.
Proof.
  intros rendered p overs p2.
  assert (H1 : NoDup (key <$> rendered)) by (by apply (bool_decide_unpack _); vm_compute).
  assert (H2 : dispatch [] (load rendered) = Normal p) by reflexivity.
  assert (H3 : dispatch (DragStart 0 :: (uncurry DragOver <$> overs)) p = Normal p2)
    by (by vm_compute).
  assert (H4 : key <$> children p2 = key <$> children p) by reflexivity.
  split_and!; [done | done | done |].
  exact (null_drag_keeps_positions rendered [] p 0 overs p2 H1 H2 (or_introl eq_refl) H3 H4).
Defined.

(** C8.  When the dragged row is the only row of the table, the candidate
    list is empty, [getDragAfterElement] yields no row, the [dragover]
    handler completes without throwing and makes the dragged row the last
    child; the order of the rows is what it was, and a table body holding
    nothing but that row is left exactly as it was. *)
Theorem dragover_alone_is_noop (p : page) (y : Q) (rect : nat → DOMRect) (d : tr) :
  rows (children p) = [d] →
  is_dragging d = true →
  candidates (children p) = []
  ∧ getDragAfterElement rect (children p) y = None
  ∧ ∃ p', on_dragover y rect p = Normal p'
      ∧ children p' = without (key d) (children p) ++ [d]
      ∧ rows (children p') = rows (children p)
      ∧ (children p = [d] → p' = p).
Proof.
  intros Hrows Hdrag.
  assert (Hrow : dnd_row d = true).
  { pose proof (rows_all_rows (children p)) as H. rewrite Hrows in H.
    by inversion H. }
  assert (Hcand : candidates (children p) = []).
  { rewrite candidates_rows, Hrows, filter_cons_False; [done|].
    rewrite Hdrag. simpl. tauto. }
  assert (Hq : querySelector sel_row_dragging (children p) = Some d).
  { unfold querySelector. rewrite dragging_rows, Hrows.
    rewrite filter_cons_True; [done | by rewrite Hdrag]. }
  pose proof (getDragAfterElement_no_candidates rect _ y Hcand) as Hafter.
  split_and!; [done | done |].
  unfold on_dragover. rewrite Hq, Hafter.
  eexists. split_and!; [done | done | |].
  - cbn [children]. unfold appendChild, rows, querySelectorAll.
    rewrite filter_app. fold (rows (without (key d) (children p))).
    rewrite rows_without, Hrows, without_cons, decide_True by done.
    rewrite filter_cons_True; [done|]. unfold sel_row. by rewrite Hrow.
  - intros Hc. destruct p as [c dr]. simpl in *. subst c.
    unfold appendChild. by rewrite without_cons, decide_True.
Qed.

Lemma dragover_alone_is_noop_witness :
  let d := Tr 7 true true "only" (Some "1") in
  let p := Page [d] (Some 7) in
  rows (children p) = [d]
  ∧ is_dragging d = true
  ∧ candidates (children p) = []
  ∧ getDragAfterElement (scenario.stacked [7]) (children p) 3 = None
  ∧ ∃ p', on_dragover 3 (scenario.stacked [7]) p = Normal p'
      ∧ children p' = without (key d) (children p) ++ [d]
      ∧ rows (children p') = rows (children p)
      ∧ (children p = [d] → p' = p).
Proof.
  intros d p.
  assert (H1 : rows (children p) = [d]) by reflexivity.
  assert (H2 : is_dragging d = true) by reflexivity.
  split_and!; [done | done | ..];
    apply (dragover_alone_is_noop p 3%Q (scenario.stacked [7]) d H1 H2).
Defined.

(** C9.  On a table whose children are distinct nodes, a [dragover]
    completes normally and leaves the same nodes, each once and each with
    the field values and classes it had, in a possibly different order; it
    changes neither [dragEl] nor the position field of any node.  Among the
    drag events, a handler that changes some node's position field is the
    [dragend] handler. *)
Theorem dragover_only_reorders (p : page) :
  NoDup (key <$> children p) →
  (∀ y rect, ∃ p', on_dragover y rect p = Normal p'
      ∧ children p' ≡ₚ children p
      ∧ NoDup (key <$> children p')
      ∧ dragEl p' = dragEl p
      ∧ ∀ k, position_of k (children p') = position_of k (children p))
  ∧ (∀ ev p', handle ev p = Normal p' →
       (∃ k, position_of k (children p') ≠ position_of k (children p)) →
       ev = DragEnd).
Proof.
  intros Hnd.
  assert (Hover : ∀ y rect, ∃ p', on_dragover y rect p = Normal p'
      ∧ children p' ≡ₚ children p
      ∧ NoDup (key <$> children p')
      ∧ dragEl p' = dragEl p
      ∧ ∀ k, position_of k (children p') = position_of k (children p)).
  { intros y rect. destruct (on_dragover_normal y rect p) as (c' & Hrun & Hperm).
    specialize (Hperm Hnd). eexists. split; [exact Hrun|]. cbn [children dragEl].
    split_and!; [done | by rewrite Hperm | done |].
    intros k. symmetry. by apply position_of_perm. }
  split; [exact Hover|].
  intros ev p' Hrun [k Hk]. destruct ev as [target|y rect|]; [| |done]; destruct Hk.
  - simpl in Hrun. injection Hrun as <-. unfold on_dragstart.
    destruct (closest_row target (children p)); [|done].
    apply position_of_update_node.
  - simpl in Hrun. destruct (Hover y rect) as (p'' & Hrun' & _ & _ & _ & Hpos).
    rewrite Hrun' in Hrun. injection Hrun as <-. apply Hpos.
Qed.

Lemma dragover_only_reorders_witness :
  let p := on_dragstart 2 (load [scenario.A; scenario.B; scenario.C]) in
  NoDup (key <$> children p)
  ∧ ∃ p', on_dragover 5 (scenario.stacked [0; 1; 2]) p = Normal p'
      ∧ children p' ≡ₚ children p
      ∧ key <$> children p' = [2; 0; 1]
      ∧ ∀ k, position_of k (children p') = position_of k (children p).
Proof.
  intros p.
  assert (H1 : NoDup (key <$> children p)) by (by apply (bool_decide_unpack _); vm_compute).
  split; [done|].
  destruct (proj1 (dragover_only_reorders p H1) 5%Q (scenario.stacked [0; 1; 2]))
    as (p' & Hrun & Hperm & _ & _ & Hpos).
  exists p'. split_and!; [done | done | | done].
  assert (Hrun' : on_dragover 5 (scenario.stacked [0; 1; 2]) p
                  = Normal (Page [set_dragging true scenario.C; scenario.A; scenario.B]
                                 (Some 2))) by (by vm_compute).
  rewrite Hrun' in Hrun. by injection Hrun as <-.
Defined.

End claims_reorder.

Section claims_flows.
Import browser.


(** C3.  In the save-then-add flow, run on a page whose add form has a
    submit button: the save request is the first request; the add request
    is issued only after the save request was answered with a success
    status, and any other settlement of the save request ends the flow with
    no further request; at every dialog, request and reload of the flow the
    button is disabled; a flow suspended at a request that never settles
    leaves it disabled, and a flow that settles ends with the button
    enabled. *)
Theorem save_then_add_flow
    (e : env) (d : edit_js.doc) (editForm addForm : edit_js.form) (b : bool)
    (t : list (obs * edit_js.doc)) (d' : edit_js.doc) (out : outcome unit) :
  edit_js.addBtn d = Some b →
  exec e d (edit_js.on_add_submit editForm addForm) = (t, d', out) →
  let d0 := edit_js.set_disabled true (edit_js.doc_updatePositions d) in
  let save := Request (edit_js.action editForm) (edit_js.FormData_edit editForm d0) in
  let add := Request (edit_js.action addForm) (edit_js.fields addForm) in
  ((∃ r, requests t = [(save, r)] ∧ r ≠ Some (Fulfilled true))
   ∨ (∃ r, requests t = [(save, Some (Fulfilled true)); (add, r)]))
  ∧ (settle e 0 ≠ Some (Fulfilled true) → requests t = [(save, settle e 0)])
  ∧ Forall (λ x, edit_js.addBtn (snd x) = Some true) t
  ∧ ((out = Hung ∧ edit_js.addBtn d' = Some true)
     ∨ (out = Returned tt ∧ edit_js.addBtn d' = Some false)).
Proof.
  intros Hbtn Hrun d0 save add. unfold exec, edit_js.on_add_submit in Hrun.
  cbn [run finally try_catch await_fetch] in Hrun.
  assert (Hd0 : edit_js.addBtn d0 = Some true).
  { unfold d0, edit_js.set_disabled, edit_js.doc_updatePositions. simpl. by rewrite Hbtn. }
  assert (Hd1 : edit_js.addBtn (edit_js.set_disabled false d0) = Some false).
  { unfold edit_js.set_disabled at 1. by rewrite Hd0. }
  fold d0 in Hrun. fold save in Hrun. fold add in Hrun.
  destruct (settle e 0) as [[[]|]|] eqn:H0; cbn in Hrun;
    [destruct (settle e 1) as [[[]|]|] eqn:H1; cbn in Hrun | | |];
    injection Hrun as <- <- <-; cbn;
    (split_and!;
     [ first [ left; eexists; split; [reflexivity | congruence]
             | right; eexists; reflexivity ]
     | first [ done | intros; reflexivity ]
     | repeat constructor; exact Hd0
     | first [ left; split; [reflexivity | exact Hd0]
             | right; split; [reflexivity | exact Hd1] ] ]).
Qed.

Lemma save_then_add_flow_witness :
  let e := Env (λ _, true) (λ _, Some (Fulfilled true)) in
  let d := edit_js.Doc (edit_js.load [scenario.A; scenario.B; scenario.C]) (Some false) in
  let editForm := edit_js.Form "/plans/1/edit" [("name", "Push")] in
  let addForm := edit_js.Form "/plans/1/add" [("exercise_id", "4")] in
  edit_js.addBtn d = Some false
  ∧ ∃ t d' out,
      exec e d (edit_js.on_add_submit editForm addForm) = (t, d', out)
      ∧ Forall (λ x, edit_js.addBtn (snd x) = Some true) t
      ∧ ((out = Hung ∧ edit_js.addBtn d' = Some true)
         ∨ (out = Returned tt ∧ edit_js.addBtn d' = Some false)).
Proof.
  intros e d editForm addForm. split; [reflexivity|].
  destruct (exec e d (edit_js.on_add_submit editForm addForm)) as [[t d'] out] eqn:Hrun.
  exists t, d', out. split; [reflexivity|].
  destruct (save_then_add_flow e d editForm addForm false t d' out eq_refl Hrun)
    as (_ & _ & Hdis & Hend).
  by split.
Defined.



(** C4.  The removal handler of the edit page, after a confirmed dialog.
    A response without a success status: one request, the alert, the
    document as it was.  A request that could not be sent or completed: one
    request, the document as it was, but no alert; the rejection leaves the
    handler uncaught.  The delete handler of the plan list catches the same
    failure and shows its alert. *)
Theorem removal_network_failure_shows_no_alert
    (d : edit_js.doc) (exId : string) :
  let click := edit_js.on_click (Some "/plans/1/remove") (Some exId) in
  let confirmed_then (r : settled) := Env (λ _, true) (λ _, Some r) in
  (∃ t, exec (confirmed_then (Fulfilled false)) d click = (t, d, Returned tt)
        ∧ length (requests t) = 1
        ∧ alerts t = ["Entfernen fehlgeschlagen."])
  ∧ (∃ t, exec (confirmed_then Rejected) d click = (t, d, Uncaught)
          ∧ length (requests t) = 1
          ∧ alerts t = [])
  ∧ (∃ t, exec (confirmed_then Rejected) (index_js.Doc (Some "3"))
               index_js.on_delete_click
          = (t, index_js.Doc (Some "3"), Returned tt)
          ∧ length (requests t) = 1
          ∧ alerts t = ["Netzwerkfehler beim Löschen."]).
Proof. intros click confirmed_then. split_and!; eexists; split_and!; reflexivity. Qed.

End claims_flows.

Section claims_clamp.
Import record_js record_spec.










End claims_clamp.

(* ================================================================== *)
(** * Further properties of the scripts *)
(* ================================================================== *)

Section string_facts.
Import js_string string_spec.

Implicit Types (s t : string) (c : ascii).

Lemma string_app_cons a s t : String a s +:+ t = String a (s +:+ t).
Proof. reflexivity. Qed.

Lemma string_app_nil_l s : "" +:+ s = s.
Proof. reflexivity. Qed.

Lemma string_app_nil_r s : s +:+ "" = s.
Proof. induction s as [|a s IH]; [done|]. by rewrite string_app_cons, IH. Qed.

Lemma string_app_assoc s1 s2 s3 : (s1 +:+ s2) +:+ s3 = s1 +:+ (s2 +:+ s3).
Proof. induction s1 as [|a s1 IH]; [done|]. by rewrite !string_app_cons, IH. Qed.

Lemma list_ascii_app s1 s2 :
  list_ascii_of_string (s1 +:+ s2) = list_ascii_of_string s1 ++ list_ascii_of_string s2.
Proof.
  induction s1 as [|a s1 IH]; [done|]. rewrite string_app_cons. simpl. by rewrite IH.
Qed.

(** A boolean property of characters holds of all once it holds of the
    256 of them. *)
Lemma ascii_all (f : ascii → bool) :
  forallb f (List.map ascii_of_nat (seq 0 256)) = true → ∀ c, f c = true.
Proof.
  intros H c. rewrite forallb_forall in H. apply H.
  rewrite <- (ascii_nat_embedding c). apply in_map, in_seq.
  pose proof (nat_ascii_bounded c). lia.
Qed.

Lemma hex_digit_value c :
  hex_value (hex_digit (code c / 16)) = Some (code c / 16)
  ∧ hex_value (hex_digit (code c mod 16)) = Some (code c mod 16)
  ∧ ascii_of_nat (16 * (code c / 16) + code c mod 16) = c.
Proof.
  pose proof (ascii_all (λ c,
    match hex_value (hex_digit (code c / 16)),
          hex_value (hex_digit (code c mod 16)) with
    | Some x, Some y =>
        (x =? code c / 16) && (y =? code c mod 16)
        && Ascii.eqb (ascii_of_nat (16 * (code c / 16) + code c mod 16)) c
    | _, _ => false
    end)
    ltac:(vm_compute; reflexivity) c) as H.
  cbv beta in H.
  destruct (hex_value (hex_digit (code c / 16))) as [x|]; [|done].
  destruct (hex_value (hex_digit (code c mod 16))) as [y|]; [|done].
  apply andb_prop in H as [H H3]. apply andb_prop in H as [H1 H2].
  apply Nat.eqb_eq in H1, H2. apply Ascii.eqb_eq in H3. by subst.
Qed.

(** An escape is read back as the byte it stands for. *)
Lemma percent_decode_escape plus c s :
  percent_decode plus (percent_encode c +:+ s) = String c (percent_decode plus s).
Proof.
  destruct (hex_digit_value c) as (H1 & H2 & H3).
  unfold percent_encode. rewrite !string_app_cons, string_app_nil_l.
  cbn [percent_decode]. replace (Ascii.eqb "%" "%") with true by reflexivity.
  by rewrite H1, H2, H3.
Qed.

Lemma percent_escape_chars c :
  Forall (λ a, delimiter a = false ∧ Ascii.eqb a "+" = false)
         (list_ascii_of_string (percent_encode c)).
Proof.
  pose proof (ascii_all (λ c,
    forallb (λ a, negb (delimiter a) && negb (Ascii.eqb a "+"))
            (list_ascii_of_string (percent_encode c)))
    ltac:(vm_compute; reflexivity) c) as H.
  cbv beta in H.
  rewrite forallb_forall in H. apply Forall_forall. intros a Ha.
  apply list_elem_of_In, H, andb_prop in Ha as [H1 H2].
  by apply negb_true_iff in H1, H2.
Qed.

Lemma uri_unreserved_plain c :
  uri_unreserved c = true →
  Ascii.eqb c "%" = false ∧ delimiter c = false ∧ Ascii.eqb c "+" = false.
Proof.
  pose proof (ascii_all (λ c,
    implb (uri_unreserved c)
          (negb (Ascii.eqb c "%") && negb (delimiter c) && negb (Ascii.eqb c "+")))
    ltac:(vm_compute; reflexivity) c) as H.
  cbv beta in H.
  intros Hc. rewrite Hc in H. simpl in H.
  apply andb_prop in H as [H H3]. apply andb_prop in H as [H1 H2].
  by apply negb_true_iff in H1, H2, H3.
Qed.

Lemma form_unreserved_plain c :
  form_unreserved c = true →
  Ascii.eqb c "%" = false ∧ Ascii.eqb c "+" = false ∧ delimiter c = false.
Proof.
  pose proof (ascii_all (λ c,
    implb (form_unreserved c)
          (negb (Ascii.eqb c "%") && negb (Ascii.eqb c "+") && negb (delimiter c)))
    ltac:(vm_compute; reflexivity) c) as H.
  cbv beta in H.
  intros Hc. rewrite Hc in H. simpl in H.
  apply andb_prop in H as [H H3]. apply andb_prop in H as [H1 H2].
  by apply negb_true_iff in H1, H2, H3.
Qed.

End string_facts.

Section encoders.
Import js_string string_spec.

(** X1.  [encodeURIComponent] can be undone by reading the escapes back, so
    it maps different texts to different texts, and its result holds none
    of the characters [&], [=], [?], [#], [/] and space. *)
Theorem encodeURIComponent_round_trip (s : string) :
  percent_decode false (encodeURIComponent s) = s
  ∧ Forall (λ a, delimiter a = false) (list_ascii_of_string (encodeURIComponent s)).
Proof.
  induction s as [|c s [IH1 IH2]]; [by split|].
  cbn [encodeURIComponent]. destruct (uri_unreserved c) eqn:Hc.
  - apply uri_unreserved_plain in Hc as (Hp & Hd & _).
    rewrite string_app_cons, string_app_nil_l. cbn [percent_decode].
    rewrite Hp, IH1. split; [done|]. simpl. by constructor.
  - rewrite percent_decode_escape, IH1. split; [done|].
    rewrite list_ascii_app. apply Forall_app. split; [|done].
    eapply Forall_impl; [apply percent_escape_chars|]. by intros a [? _].
Qed.

(** X2.  The form serializer behind [URLSearchParams.toString] can be
    undone by reading [+] as a space and the escapes back, and its result
    holds none of the characters [&], [=], [?], [#], [/] and space: in a
    serialized query every [&] and [=] is a separator. *)
Theorem urlencode_round_trip (s : string) :
  percent_decode true (urlencode s) = s
  ∧ Forall (λ a, delimiter a = false) (list_ascii_of_string (urlencode s)).
Proof.
  induction s as [|c s [IH1 IH2]]; [by split|].
  cbn [urlencode]. destruct (form_unreserved c) eqn:Hc.
  - apply form_unreserved_plain in Hc as (Hp & Hplus & Hd).
    rewrite string_app_cons, string_app_nil_l. cbn [percent_decode].
    rewrite Hp, Hplus, andb_false_r, IH1. split; [done|]. simpl. by constructor.
  - destruct (Ascii.eqb c " ") eqn:Hsp.
    + apply Ascii.eqb_eq in Hsp as ->.
      rewrite string_app_cons, string_app_nil_l. cbn [percent_decode].
      replace (Ascii.eqb "+" "%") with false by reflexivity.
      replace (Ascii.eqb "+" "+") with true by reflexivity.
      rewrite IH1. split; [done|]. simpl. by constructor.
    + rewrite percent_decode_escape, IH1. split; [done|].
      rewrite list_ascii_app. apply Forall_app. split; [|done].
      eapply Forall_impl; [apply percent_escape_chars|]. by intros a [? _].
Qed.

End encoders.

Section replace_facts.
Import js_string string_spec.

Implicit Types (s t p : string) (c : ascii).

Lemma string_length_app s t : String.length (s +:+ t) = String.length s + String.length t.
Proof. induction s as [|a s IH]; [done|]. rewrite string_app_cons. simpl. by rewrite IH. Qed.

Lemma substring_all s : substring 0 (String.length s) s = s.
Proof. induction s as [|a s IH]; [done|]. simpl. by rewrite IH. Qed.

Lemma substring_app_l p s : substring 0 (String.length p) (p +:+ s) = p.
Proof.
  induction p as [|a p IH]; [by destruct s|]. rewrite string_app_cons. simpl. by rewrite IH.
Qed.

Lemma substring_app_r p s k m :
  substring (String.length p + k) m (p +:+ s) = substring k m s.
Proof. induction p as [|a p IH]; [done|]. rewrite string_app_cons. simpl. apply IH. Qed.

Lemma prefix_single c a s : String.prefix (String c "") (String a s) = Ascii.eqb a c.
Proof.
  apply eq_true_iff_eq. rewrite prefix_correct, Ascii.eqb_eq. simpl.
  replace (substring 0 0 s) with "" by (by destruct s).
  split; [by intros [= ->] | by intros ->].
Qed.

Lemma index_first c p s :
  occurs c p = false → index 0 (String c "") (p +:+ String c s) = Some (String.length p).
Proof.
  induction p as [|a p IH]; intros Hp.
  - rewrite string_app_nil_l. cbn [index]. by rewrite prefix_single, Ascii.eqb_refl.
  - simpl in Hp. apply orb_false_iff in Hp as [Ha Hp].
    rewrite string_app_cons. cbn [index]. by rewrite prefix_single, Ha, IH.
Qed.

Lemma index_absent c s : occurs c s = false → index 0 (String c "") s = None.
Proof.
  induction s as [|a s IH]; intros Hs; [done|].
  simpl in Hs. apply orb_false_iff in Hs as [Ha Hs].
  cbn [index]. by rewrite prefix_single, Ha, IH.
Qed.

Lemma GetSubstitution_plain matched before after t :
  occurs "$" t = false → GetSubstitution matched before after t = t.
Proof.
  induction t as [|a t IH]; intros Ht; [done|].
  simpl in Ht. apply orb_false_iff in Ht as [Ha Ht].
  cbn [GetSubstitution]. by rewrite Ha, IH.
Qed.

(** Replacing in a text that holds the pattern character: the first one
    goes, whatever follows it stays. *)
Lemma replace_first_zero p s id :
  occurs "0" p = false → occurs "$" id = false →
  replace "0" id (p +:+ "0" +:+ s) = p +:+ id +:+ s.
Proof.
  intros Hp Hid. change (p +:+ "0" +:+ s) with (p +:+ String "0" s).
  unfold replace. rewrite (index_first "0" p s Hp).
  cbn zeta. rewrite substring_app_l, GetSubstitution_plain by done.
  rewrite string_length_app. cbn [String.length].
  replace (String.length p + S (String.length s) - (String.length p + 1))
    with (String.length s) by lia.
  rewrite substring_app_r. cbn [substring]. by rewrite substring_all.
Qed.

Lemma replace_no_zero t id : occurs "0" t = false → replace "0" id t = t.
Proof. intros Ht. unfold replace. by rewrite (index_absent "0" t Ht). Qed.

End replace_facts.

Section index_page.
Import browser js_string string_spec index_buttons.

(** X3.  The edit button of the plan list.  With no plan selected it shows
    the alert and goes nowhere.  With plan [id] selected, an id free of [$],
    and a template that holds a [0], it goes to the template with its first
    [0] replaced by the id, the rest of the template kept; a template
    without [0] is the address as it is. *)
Theorem edit_click_target (d : index_js.doc) :
  (index_js.selId d = None →
     ∀ tmpl, on_edit_click d tmpl = ShowAlert "Bitte einen Plan in der Liste auswählen.")
  ∧ (∀ id p s,
       index_js.selId d = Some id → occurs "$" id = false → occurs "0" p = false →
       on_edit_click d (Some (p +:+ "0" +:+ s)) = Navigate (p +:+ id +:+ s))
  ∧ (∀ id t,
       index_js.selId d = Some id → t ≠ "" → occurs "0" t = false →
       on_edit_click d (Some t) = Navigate t).
Proof.
  split_and!.
  - intros Hsel tmpl. unfold on_edit_click. by rewrite Hsel.
  - intros id p s Hsel Hid Hp. unfold on_edit_click. rewrite Hsel.
    unfold truthy. rewrite decide_False by (by destruct p).
    by rewrite replace_first_zero.
  - intros id t Hsel Ht H0. unfold on_edit_click. rewrite Hsel.
    unfold truthy. rewrite decide_False by done. by rewrite replace_no_zero.
Qed.

Lemma edit_click_target_witness :
  let d := index_js.Doc (Some "17") in
  index_js.selId d = Some "17"
  ∧ occurs "$" "17" = false
  ∧ occurs "0" "/plans/" = false
  ∧ on_edit_click d (Some ("/plans/" +:+ "0" +:+ "/edit")) = Navigate "/plans/17/edit".
Proof.
  intros d.
  assert (H1 : index_js.selId d = Some "17") by reflexivity.
  assert (H2 : occurs "$" "17" = false) by reflexivity.
  assert (H3 : occurs "0" "/plans/" = false) by reflexivity.
  split_and!; [exact H1 | exact H2 | exact H3 |].
  exact (proj1 (proj2 (edit_click_target d)) "17" "/plans/" "/edit" H1 H2 H3).
Defined.

(** X4.  The record button.  [updateRecordButton] keeps the button's
    address and disables the button exactly when no plan is selected, and a
    click on a button it left disabled goes nowhere; a click on a button it
    left enabled, with an address [base] on the button, goes to
    [base?plan_id=] followed by the encoded id.  With the same button, two
    selections that lead to the same address are the same selection. *)
Theorem record_click_target :
  (∀ (d : index_js.doc) (b : record_button),
     ∃ b', updateRecordButton d (Some b) = Some b'
       ∧ newSessionUrl b' = newSessionUrl b
       ∧ (disabled b' = true ↔ index_js.selId d = None)
       ∧ (disabled b' = true → on_record_click d b' = Nothing)
       ∧ (∀ base, disabled b' = false → truthy (newSessionUrl b) = Some base →
            ∃ id, index_js.selId d = Some id
              ∧ on_record_click d b'
                = Navigate (base +:+ "?plan_id=" +:+ encodeURIComponent id)))
  ∧ (∀ (d1 d2 : index_js.doc) (b : record_button) (href : string),
       on_record_click d1 b = Navigate href →
       on_record_click d2 b = Navigate href →
       index_js.selId d1 = index_js.selId d2).
Proof.
  split.
  - intros d b. eexists. split; [reflexivity|]. cbn [newSessionUrl disabled].
    unfold on_record_click. cbn [newSessionUrl].
    destruct (index_js.selId d) as [id|] eqn:Hsel.
    + rewrite bool_decide_eq_true_2 by eauto. simpl.
      split_and!; [done | done | done |].
      intros base _ ->. by exists id.
    + rewrite bool_decide_eq_false_2 by (by intros [??]). simpl.
      split_and!; [done | done | done | done].
  - intros d1 d2 b href. unfold on_record_click.
    destruct (index_js.selId d1) as [id1|]; [|done].
    destruct (index_js.selId d2) as [id2|]; [|by destruct (truthy _)].
    destruct (truthy (newSessionUrl b)) as [base|]; [|done].
    intros [= <-] [= H]. apply (inj (String.app base)) in H.
    apply (inj (String.app "?plan_id=")) in H.
    apply (f_equal (percent_decode false)) in H.
    by rewrite !(proj1 (encodeURIComponent_round_trip _)) in H; subst.
Qed.

Lemma record_click_target_witness :
  let d := index_js.Doc (Some "a b") in
  let b := RecordButton (Some "/sessions/new") true in
  ∃ b', updateRecordButton d (Some b) = Some b'
    ∧ disabled b' = false
    ∧ truthy (newSessionUrl b) = Some "/sessions/new"
    ∧ ∃ id, index_js.selId d = Some id
        ∧ on_record_click d b'
          = Navigate ("/sessions/new" +:+ "?plan_id=" +:+ encodeURIComponent id).
Proof.
  intros d b.
  destruct (proj1 record_click_target d b) as (b' & Hb' & _ & Hdis & _ & Hgo).
  exists b'.
  assert (H1 : disabled b' = false).
  { destruct (disabled b'); [|done]. destruct Hdis as [Hd _]. discriminate (Hd eq_refl). }
  assert (H2 : truthy (newSessionUrl b) = Some "/sessions/new") by reflexivity.
  split_and!; [exact Hb' | exact H1 | exact H2 |].
  exact (Hgo "/sessions/new" H1 H2).
Defined.

End index_page.

Section trim_facts.
Import js_string.

Implicit Types (l : list ascii) (fwd : bool).

(** One step of [strip]: either nothing is white at the head and the list
    stays, or a non-empty head is dropped and stripping goes on. *)
Lemma strip_step fwd l :
  (strip fwd l = l ∧ ∀ a r, l = a :: r → white1 a = false)
  ∨ (∃ pre l', l = pre ++ l' ∧ pre ≠ [] ∧ strip fwd l = strip fwd l').
Proof.
  destruct l as [|a r1]; [by left|]. cbn [strip].
  destruct (white1 a) eqn:Ha.
  { right. by exists [a], r1. }
  destruct r1 as [|b r2]; [left; split; [done|]; by intros ?? [= <- _]|].
  destruct (white2 fwd a b) eqn:Hab.
  { right. by exists [a; b], r2. }
  destruct r2 as [|c r3]; [left; split; [done|]; by intros ?? [= <- _]|].
  destruct (white3 fwd a b c) eqn:Habc.
  { right. by exists [a; b; c], r3. }
  left. split; [done|]. by intros ?? [= <- _].
Qed.

Lemma strip_result fwd l :
  (∃ pre, l = pre ++ strip fwd l)
  ∧ ∀ a r, strip fwd l = a :: r → white1 a = false.
Proof.
  remember (length l) as n eqn:Hn. revert l Hn.
  induction n as [n IH] using lt_wf_ind. intros l ->.
  destruct (strip_step fwd l) as [[Hl Hhead]|(pre & l' & -> & Hpre & Hl)].
  - rewrite Hl. split; [by exists []|]. exact Hhead.
  - rewrite Hl.
    destruct (IH (length l')) with (l := l') as [[pre' Hpre'] Hhead]; [|done|].
    { rewrite length_app. destruct pre; [done|]. simpl. lia. }
    split; [|exact Hhead].
    exists (pre ++ pre'). rewrite <- app_assoc. by rewrite <- Hpre'.
Qed.

Lemma strip_white fwd l : Forall (λ a, white1 a = true) l → strip fwd l = [].
Proof. induction 1 as [|a l Ha _ IH]; [done|]. cbn [strip]. by rewrite Ha. Qed.

Lemma trim_list s :
  list_ascii_of_string (trim s)
  = reverse (strip false (reverse (strip true (list_ascii_of_string s)))).
Proof. unfold trim. apply list_ascii_of_string_of_list_ascii. Qed.

Lemma trim_blank s :
  Forall (λ a, white1 a = true) (list_ascii_of_string s) → trim s = "".
Proof. intros H. unfold trim. by rewrite (strip_white true _ H). Qed.

(** A trimmed text neither begins nor ends with an ASCII white-space
    character. *)
Lemma trim_ends s a :
  head (list_ascii_of_string (trim s)) = Some a
  ∨ last (list_ascii_of_string (trim s)) = Some a →
  white1 a = false.
Proof.
  rewrite trim_list, head_reverse, last_reverse.
  set (l0 := strip true (list_ascii_of_string s)).
  destruct (strip_result false (reverse l0)) as [[pre Hpre] Hhead].
  destruct (strip false (reverse l0)) as [|z r] eqn:Hs.
  - by intros [?|?].
  - intros [Hlast|[= <-]]; [|by eapply Hhead].
    assert (Hl0 : last (reverse l0) = Some a).
    { rewrite Hpre, last_app. by rewrite Hlast. }
    rewrite last_reverse in Hl0.
    destruct (strip_result true (list_ascii_of_string s)) as [_ Hhead0].
    fold l0 in Hhead0. destruct l0 as [|x l0]; [done|].
    simpl in Hl0. injection Hl0 as ->. by eapply Hhead0.
Qed.

End trim_facts.

Section add_plan.
Import browser js_string index_buttons.

Ltac obs_fact :=
  repeat first
    [ progress intros
    | match goal with
      | H : _ ∈ [] |- _ => by apply elem_of_nil in H
      | H : _ ∈ _ :: _ |- _ => apply elem_of_cons in H as [H|H]
      | H : APrompt _ _ = _ |- _ => discriminate H
      | H : AFetch _ _ _ = _ |- _ => first [discriminate H | injection H as ???; subst]
      | H : ANavigate _ = _ |- _ => first [discriminate H | injection H as ?; subst]
      | H : AReload = _ |- _ => discriminate H
      | H : AAlert _ = _ |- _ => first [discriminate H | injection H as ?; subst]
      end
    | done
    | by eauto ].

(** X5.  The add button of the plan list.  A cancelled prompt, an empty
    answer and an answer of ASCII white space only end the handler after
    the prompt, and so does a button without create address.  Otherwise one
    request goes to the create address, with the trimmed name, which is not
    empty and neither begins nor ends with ASCII white space, and the next
    address in a form-encoded body.  The handler navigates only to the
    address of a redirected response, reloads only after a response that
    was not redirected, and alerts only after a rejected request. *)
Theorem add_click_requests
    (createUrl nextUrl answer : option string) (settle : option create_settled) :
  let t := on_add_click createUrl nextUrl answer settle in
  let name := trim (default "" (truthy answer)) in
  (Forall (λ a, white1 a = true) (list_ascii_of_string (default "" answer)) →
     t = [APrompt "Name des neuen Plans:" answer])
  ∧ (truthy createUrl = None → t = [APrompt "Name des neuen Plans:" answer])
  ∧ (∀ url, name ≠ "" → truthy createUrl = Some url →
       ∃ body rest, t = APrompt "Name des neuen Plans:" answer
                        :: AFetch url body settle :: rest)
  ∧ (∀ url body res, AFetch url body res ∈ t →
       truthy createUrl = Some url ∧ res = settle
       ∧ body = "name=" +:+ urlencode name
                +:+ "&next=" +:+ urlencode (default "" (truthy nextUrl))
       ∧ name ≠ ""
       ∧ ∀ a, head (list_ascii_of_string name) = Some a
              ∨ last (list_ascii_of_string name) = Some a → white1 a = false)
  ∧ (∀ href, ANavigate href ∈ t → settle = Some (CreateFulfilled true href))
  ∧ (AReload ∈ t → ∃ u, settle = Some (CreateFulfilled false u))
  ∧ (∀ msg, AAlert msg ∈ t → settle = Some CreateRejected).
Proof.
  intros t name.
  assert (Hans : default "" (truthy answer) = default "" answer).
  { destruct answer as [a|]; [|done]. unfold truthy. by case_decide. }
  assert (Hends : ∀ a, head (list_ascii_of_string name) = Some a
                       ∨ last (list_ascii_of_string name) = Some a → white1 a = false).
  { intros a. apply trim_ends. }
  unfold t, on_add_click. fold name.
  change (truthy (Some name)) with (if decide (name = "") then None else Some name).
  destruct (decide (name = "")) as [Hname|Hname].
  { split_and!; obs_fact. }
  destruct (truthy createUrl) as [url|] eqn:Hurl.
  2:{ split_and!; obs_fact. }
  split_and!.
  - intros Hw. destruct Hname. unfold name. rewrite Hans. by apply trim_blank.
  - done.
  - intros url' _ [= <-]. eauto.
  - intros url' body res Hin.
    apply elem_of_cons in Hin as [Hin|Hin]; [done|].
    apply elem_of_cons in Hin as [Hin|Hin].
    + injection Hin as -> -> ->. split_and!; done.
    + destruct settle as [[[] u|]|]; obs_fact.
  - destruct settle as [[[] u|]|]; obs_fact.
  - destruct settle as [[[] u|]|]; obs_fact.
  - destruct settle as [[[] u|]|]; obs_fact.
Qed.

Lemma add_click_requests_witness :
  let t := on_add_click (Some "/plans/create") (Some "/") (Some " Push Day ")
                        (Some (CreateFulfilled true "/plans/9/edit")) in
  trim (default "" (truthy (Some " Push Day "))) ≠ ""
  ∧ truthy (Some "/plans/create") = Some "/plans/create"
  ∧ ∃ body rest, t = APrompt "Name des neuen Plans:" (Some " Push Day ")
                     :: AFetch "/plans/create" body
                               (Some (CreateFulfilled true "/plans/9/edit")) :: rest.
Proof.
  intros t.
  assert (H1 : trim (default "" (truthy (Some " Push Day "))) ≠ "") by (by vm_compute).
  assert (H2 : truthy (Some "/plans/create") = Some "/plans/create") by reflexivity.
  split_and!; [exact H1 | exact H2 |].
  exact (proj1 (proj2 (proj2 (add_click_requests (Some "/plans/create") (Some "/")
           (Some " Push Day ") (Some (CreateFulfilled true "/plans/9/edit")))))
         "/plans/create" H1 H2).
Defined.

End add_plan.

Section progress_page.
Import browser js_string string_spec progress_js.

Lemma truthy_default (v : option string) : truthy (Some (default "" v)) = truthy v.
Proof. by destruct v. Qed.

Lemma truthy_Some_ne (v : string) : v ≠ "" → truthy (Some v) = Some v.
Proof. intros Hv. unfold truthy. by rewrite decide_False. Qed.

(** X6.  The entries [navigate] puts into the query: the diagram type
    whenever it is not empty; a plan id exactly for the type plan with a
    non-empty plan id; an exercise id exactly for the type exercise with a
    non-empty exercise id; never both ids. *)
Theorem navigate_params_shape (diagramType : string) (planId exerciseId : option string) :
  let ps := navigate_params diagramType planId exerciseId in
  (∀ v, ("diagram_type", v) ∈ ps ↔ v = diagramType ∧ diagramType ≠ "")
  ∧ (∀ v, ("plan_id", v) ∈ ps ↔ diagramType = "plan" ∧ truthy planId = Some v)
  ∧ (∀ v, ("exercise_id", v) ∈ ps ↔ diagramType = "exercise" ∧ truthy exerciseId = Some v)
  ∧ ¬ (∃ v w, ("plan_id", v) ∈ ps ∧ ("exercise_id", w) ∈ ps).
Proof.
  intros ps. unfold ps, navigate_params.
  destruct (decide (diagramType = "")) as [->|Hne];
    [|destruct (decide (diagramType = "plan")) as [->|Hplan];
      [|destruct (decide (diagramType = "exercise")) as [->|Hex]]];
    destruct (truthy planId) as [pid|], (truthy exerciseId) as [eid|];
    simpl; split_and!;
    try (intros v; rewrite ?elem_of_cons, ?elem_of_nil; split;
         [intros H; repeat destruct H as [H|H]; try done; by simplify_eq
         |intros [H1 H2]; by simplify_eq; auto]);
    try (intros (v & w & H1 & H2); revert H1 H2;
         rewrite ?elem_of_cons, ?elem_of_nil; intros H1 H2;
         repeat destruct H1 as [H1|H1]; repeat destruct H2 as [H2|H2];
         try done; by simplify_eq).
Qed.

Lemma navigate_location (dt : string) (pid eid : option string) (p : page) (u : string) :
  truthy (overviewUrl p) = Some u →
  dt ≠ "" →
  location (navigate dt pid eid p)
  = Some (u +:+ "?" +:+ URLSearchParams_toString (navigate_params dt pid eid)).
Proof.
  intros Hu Hdt. unfold navigate. rewrite Hu. cbn [location set_location].
  rewrite decide_False; [done|].
  unfold navigate_params. rewrite decide_False by done.
  assert (Hhead : ∀ t, urlencode "diagram_type" +:+ t ≠ "").
  { intros t. by change (urlencode "diagram_type") with "diagram_type". }
  destruct (if decide (dt = "plan") then truthy pid else None); [apply Hhead|].
  destruct (if decide (dt = "exercise") then truthy eid else None); apply Hhead.
Qed.

Lemma navigate_without_url (dt : string) (pid eid : option string) (p : page) :
  truthy (overviewUrl p) = None → navigate dt pid eid p = p.
Proof. intros Hu. unfold navigate. by rewrite Hu. Qed.

(** X7.  A change of the diagram type: for the value plan the plan group is
    shown and the exercise group hidden, for every other value the other way
    round, on the groups the page has.  With an overview address [u] the
    page goes to [u?diagram_type=plan] or [u?diagram_type=exercise], with
    the selected plan or exercise appended when its value is not empty;
    without one it goes nowhere. *)
Theorem type_change_target (p : page) (t : string) :
  diagramTypeSelect p = Some t →
  let p' := on_diagramType_change p in
  (planGroup p' = (λ _, if decide (t = "plan") then "" else "none") <$> planGroup p)
  ∧ (exerciseGroup p' = (λ _, if decide (t = "plan") then "none" else "") <$> exerciseGroup p)
  ∧ (truthy (overviewUrl p) = None → location p' = location p)
  ∧ (∀ u, truthy (overviewUrl p) = Some u →
       location p'
       = Some (if decide (t = "plan") then
                 u +:+ "?diagram_type=plan"
                   +:+ match truthy (planSelect p) with
                       | Some id => "&plan_id=" +:+ urlencode id
                       | None => ""
                       end
               else
                 u +:+ "?diagram_type=exercise"
                   +:+ match truthy (exerciseSelect p) with
                       | Some id => "&exercise_id=" +:+ urlencode id
                       | None => ""
                       end)).
Proof.
  intros Ht p'. unfold p', on_diagramType_change. rewrite Ht.
  destruct (decide (t = "plan")) as [->|Hplan].
  - split_and!.
    + unfold navigate. by destruct (truthy (overviewUrl (set_display "" "none" p))).
    + unfold navigate. by destruct (truthy (overviewUrl (set_display "" "none" p))).
    + intros Hu. by rewrite navigate_without_url.
    + intros u Hu. rewrite (navigate_location _ _ _ _ u) by done.
      unfold navigate_params. rewrite truthy_default.
      by destruct (truthy (planSelect p)).
  - split_and!.
    + unfold navigate. by destruct (truthy (overviewUrl (set_display "none" "" p))).
    + unfold navigate. by destruct (truthy (overviewUrl (set_display "none" "" p))).
    + intros Hu. by rewrite navigate_without_url.
    + intros u Hu. rewrite (navigate_location _ _ _ _ u) by done.
      unfold navigate_params. rewrite truthy_default.
      by destruct (truthy (exerciseSelect p)).
Qed.

Lemma type_change_target_witness :
  let p := Page (Some "/") (Some "/progress") None None
                (Some "") (Some "3") (Some "7") (Some "") (Some "none") None in
  diagramTypeSelect p = Some ""
  ∧ truthy (overviewUrl p) = Some "/progress"
  ∧ planGroup (on_diagramType_change p) = Some "none"
  ∧ location (on_diagramType_change p)
    = Some "/progress?diagram_type=exercise&exercise_id=7".
Proof.
  intros p.
  assert (H1 : diagramTypeSelect p = Some "") by reflexivity.
  assert (H2 : truthy (overviewUrl p) = Some "/progress") by reflexivity.
  destruct (type_change_target p "" H1) as (Hg & _ & _ & Hloc).
  split_and!; [exact H1 | exact H2 | exact Hg | exact (Hloc "/progress" H2)].
Defined.

(** X8.  A change of the plan select, with an overview address [u].  With
    the type select on plan, or no type select, and a plan chosen, the page
    goes to [u?diagram_type=plan&plan_id=] and the encoded value.  With the
    type select on any other non-empty value the address carries that type
    and no id: the chosen plan is dropped.  With the type select on the
    empty value the page goes to [u] itself.  The exercise select behaves
    the same way with the roles exchanged. *)
Theorem select_change_target (p : page) (u v : string) :
  truthy (overviewUrl p) = Some u →
  (planSelect p = Some v →
     let href := location (on_planSelect_change p) in
     (default "plan" (diagramTypeSelect p) = "plan" → v ≠ "" →
        href = Some (u +:+ "?diagram_type=plan&plan_id=" +:+ urlencode v))
     ∧ (∀ t, diagramTypeSelect p = Some t → t ≠ "" → t ≠ "plan" →
          href = Some (u +:+ "?diagram_type=" +:+ urlencode t))
     ∧ (diagramTypeSelect p = Some "" → href = Some u))
  ∧ (exerciseSelect p = Some v →
       let href := location (on_exerciseSelect_change p) in
       (default "exercise" (diagramTypeSelect p) = "exercise" → v ≠ "" →
          href = Some (u +:+ "?diagram_type=exercise&exercise_id=" +:+ urlencode v))
       ∧ (∀ t, diagramTypeSelect p = Some t → t ≠ "" → t ≠ "exercise" →
            href = Some (u +:+ "?diagram_type=" +:+ urlencode t))
       ∧ (diagramTypeSelect p = Some "" → href = Some u)).
Proof.
  intros Hu. split.
  - intros Hv href. unfold href, on_planSelect_change. rewrite Hv. split_and!.
    + intros -> Hne. rewrite (navigate_location _ _ _ _ u) by done.
      unfold navigate_params. by rewrite truthy_Some_ne.
    + intros t -> Ht Hplan. simpl. rewrite (navigate_location _ _ _ _ u) by done.
      unfold navigate_params. rewrite !decide_False by done.
      by destruct (decide (t = "exercise")).
    + intros ->. simpl. unfold navigate. by rewrite Hu.
  - intros Hv href. unfold href, on_exerciseSelect_change. rewrite Hv. split_and!.
    + intros -> Hne. rewrite (navigate_location _ _ _ _ u) by done.
      unfold navigate_params. by rewrite truthy_Some_ne.
    + intros t -> Ht Hex. simpl. rewrite (navigate_location _ _ _ _ u) by done.
      unfold navigate_params. rewrite (decide_False (P := t = "")) by done.
      rewrite (decide_False (P := t = "exercise")) by done.
      by destruct (decide (t = "plan")).
    + intros ->. simpl. unfold navigate. by rewrite Hu.
Qed.

Lemma select_change_target_witness :
  let p := Page (Some "/") (Some "/progress") None None
                (Some "exercise") (Some "3") (Some "7") (Some "") (Some "none") None in
  truthy (overviewUrl p) = Some "/progress"
  ∧ planSelect p = Some "3"
  ∧ diagramTypeSelect p = Some "exercise"
  ∧ location (on_planSelect_change p) = Some "/progress?diagram_type=exercise".
Proof.
  intros p.
  assert (H1 : truthy (overviewUrl p) = Some "/progress") by reflexivity.
  assert (H2 : planSelect p = Some "3") by reflexivity.
  assert (H3 : diagramTypeSelect p = Some "exercise") by reflexivity.
  split_and!; [exact H1 | exact H2 | exact H3 |].
  exact (proj1 (proj2 (proj1 (select_change_target p "/progress" "3" H1) H2))
               "exercise" H3 ltac:(discriminate) ltac:(discriminate)).
Defined.

(** X9.  The export button.  In plan mode (the type select on plan, or no
    type select), with a chosen plan whose value is free of [$] and a plan
    template that holds a [0], the page goes to the template with its first
    [0] replaced by the value, followed by [?download=1]; in every other
    mode the same with the exercise select and the exercise template.
    Without a chosen value or without the template the page stays. *)
Theorem export_click_target (p : page) :
  (∀ id a b,
     default "plan" (diagramTypeSelect p) = "plan" →
     planSelect p = Some id → id ≠ "" → occurs "$" id = false →
     planPngTemplate p = Some (a +:+ "0" +:+ b) → occurs "0" a = false →
     location (on_export_click p) = Some (a +:+ id +:+ b +:+ "?download=1"))
  ∧ (∀ id a b,
       default "plan" (diagramTypeSelect p) ≠ "plan" →
       exerciseSelect p = Some id → id ≠ "" → occurs "$" id = false →
       exercisePngTemplate p = Some (a +:+ "0" +:+ b) → occurs "0" a = false →
       location (on_export_click p) = Some (a +:+ id +:+ b +:+ "?download=1"))
  ∧ (default "plan" (diagramTypeSelect p) = "plan" →
     truthy (planSelect p) = None ∨ truthy (planPngTemplate p) = None →
     on_export_click p = p)
  ∧ (default "plan" (diagramTypeSelect p) ≠ "plan" →
     truthy (exerciseSelect p) = None ∨ truthy (exercisePngTemplate p) = None →
     on_export_click p = p).
Proof.
  assert (Htmpl : ∀ a b, truthy (Some (a +:+ "0" +:+ b)) = Some (a +:+ "0" +:+ b)).
  { intros a b. apply truthy_Some_ne. by destruct a. }
  split_and!.
  - intros id a b Hmode Hsel Hid Hdollar Ht Ha. unfold on_export_click.
    rewrite decide_True by done. rewrite truthy_default, Hsel, Ht, Htmpl.
    rewrite truthy_Some_ne by done. cbn [location set_location].
    by rewrite replace_first_zero, !string_app_assoc.
  - intros id a b Hmode Hsel Hid Hdollar Ht Ha. unfold on_export_click.
    rewrite decide_False by done. rewrite truthy_default, Hsel, Ht, Htmpl.
    rewrite truthy_Some_ne by done. cbn [location set_location].
    by rewrite replace_first_zero, !string_app_assoc.
  - intros Hmode Hmiss. unfold on_export_click.
    rewrite decide_True by done. rewrite truthy_default.
    destruct Hmiss as [-> | ->]; [done|]. by destruct (truthy (planSelect p)).
  - intros Hmode Hmiss. unfold on_export_click.
    rewrite decide_False by done. rewrite truthy_default.
    destruct Hmiss as [-> | ->]; [done|]. by destruct (truthy (exerciseSelect p)).
Qed.

Lemma export_click_target_witness :
  let p := Page (Some "/") (Some "/progress") (Some "/png/plan/0") (Some "/png/ex/0")
                (Some "exercise") (Some "3") (Some "7") (Some "") (Some "none") None in
  default "plan" (diagramTypeSelect p) ≠ "plan"
  ∧ exerciseSelect p = Some "7"
  ∧ exercisePngTemplate p = Some ("/png/ex/" +:+ "0" +:+ "")
  ∧ location (on_export_click p) = Some "/png/ex/7?download=1".
Proof.
  intros p.
  assert (H1 : default "plan" (diagramTypeSelect p) ≠ "plan") by discriminate.
  assert (H2 : exerciseSelect p = Some "7") by reflexivity.
  assert (H3 : exercisePngTemplate p = Some ("/png/ex/" +:+ "0" +:+ "")) by reflexivity.
  split_and!; [exact H1 | exact H2 | exact H3 |].
  exact (proj1 (proj2 (export_click_target p)) "7" "/png/ex/" "" H1 H2
               ltac:(discriminate) eq_refl H3 eq_refl).
Defined.

End progress_page.

Section reorder_table.
Import edit_js spec.

Implicit Types (c : list tr) (n : tr) (p : page).

Lemma renumber_lookup_node i c j n' :
  renumber i c !! j = Some n' →
  ∃ n, c !! j = Some n
       ∧ (n' = n ∨ (dnd_row n = true ∧ ∃ v, n' = set_position_value v n)).
Proof.
  revert i j. induction c as [|n c IH]; intros i j; [done|].
  cbn [renumber]. destruct (dnd_row n) eqn:Hrow; destruct j as [|j]; simpl.
  - intros [= <-]. exists n. split; [done|]. right. eauto.
  - apply IH.
  - intros [= <-]. exists n. auto.
  - apply IH.
Qed.

Lemma is_dragging_set_position_value v n :
  is_dragging (set_position_value v n) = is_dragging n.
Proof. unfold set_position_value. by destruct (position n). Qed.

(** X10.  On a table of distinct nodes [updatePositions] is idempotent, and
    it leaves every node in its place with its key, classes and exercise;
    a node keeps its position input or its lack of one, and a child that is
    no row is left as it is. *)
Theorem updatePositions_idempotent (c : list tr) :
  NoDup (key <$> c) →
  updatePositions (updatePositions c) = updatePositions c
  ∧ length (updatePositions c) = length c
  ∧ ∀ i n', updatePositions c !! i = Some n' →
      ∃ n, c !! i = Some n
           ∧ key n' = key n ∧ dnd_row n' = dnd_row n
           ∧ is_dragging n' = is_dragging n ∧ exercise_id n' = exercise_id n
           ∧ (is_Some (position n') ↔ is_Some (position n))
           ∧ (dnd_row n = false → n' = n).
Proof.
  intros Hnd. rewrite (updatePositions_renumber c Hnd).
  split_and!.
  - rewrite updatePositions_renumber by (by rewrite renumber_keys).
    apply in_sync_renumber, renumber_in_sync.
  - rewrite <- (length_fmap key), renumber_keys. apply length_fmap.
  - intros i n' Hn'. apply renumber_lookup_node in Hn' as (n & Hn & Hcase).
    exists n. split; [done|].
    destruct Hcase as [->|(Hrow & v & ->)]; [by split_and!|].
    rewrite key_set_position_value, dnd_row_set_position_value,
      is_dragging_set_position_value, exercise_id_set_position_value,
      position_set_position_value.
    split_and!; try done.
    + rewrite fmap_is_Some. done.
    + by rewrite Hrow.
Qed.

Lemma updatePositions_idempotent_witness :
  let c := [Tr 4 true false "x" (Some ""); Tr 9 false false "" (Some "k");
            Tr 5 true true "y" None] in
  NoDup (key <$> c)
  ∧ updatePositions (updatePositions c) = updatePositions c
  ∧ length (updatePositions c) = length c.
Proof.
  intros c.
  assert (H1 : NoDup (key <$> c)) by (by apply (bool_decide_unpack _); vm_compute).
  destruct (updatePositions_idempotent c H1) as (Hidem & Hlen & _).
  by split_and!.
Defined.








(** X13.  Outside a drag the table does not move: when no row carries the
    dragging class, any number of [dragover] events leaves the page as it
    is, and a [dragstart] whose target lies in no row leaves it as it is. *)
Theorem dragover_outside_drag (p : page) :
  (Forall (λ n, sel_row_dragging n = false) (children p) →
     ∀ overs, dispatch (uncurry DragOver <$> overs) p = Normal p)
  ∧ (∀ target,
       (∀ n, n ∈ children p → key n = target → dnd_row n = false) →
       on_dragstart target p = p).
Proof.
  split.
  - intros Hnone overs.
    assert (Hq : querySelector sel_row_dragging (children p) = None).
    { unfold querySelector, querySelectorAll. apply head_None.
      destruct (filter _ _) as [|n l] eqn:Hf; [done|].
      assert (Hn : n ∈ filter (λ n, sel_row_dragging n) (children p))
        by (rewrite Hf; by left).
      apply list_elem_of_filter in Hn as [Hs Hn].
      rewrite Forall_forall in Hnone. by rewrite (Hnone n Hn) in Hs. }
    induction overs as [|[y rect] overs IH]; [done|].
    rewrite fmap_cons. cbn [dispatch uncurry handle].
    unfold on_dragover. rewrite Hq. exact IH.
  - intros target Htarget. unfold on_dragstart, closest_row.
    destruct (filter _ _) as [|n l] eqn:Hf; [done|].
    assert (Hn : n ∈ filter (λ n, key n = target ∧ dnd_row n) (children p))
      by (rewrite Hf; by left).
    apply list_elem_of_filter in Hn as [[Hk Hrow] Hn].
    by rewrite (Htarget n Hn Hk) in Hrow.
Qed.

Lemma dragover_outside_drag_witness :
  let p := load [scenario.A; scenario.B; scenario.C] in
  Forall (λ n, sel_row_dragging n = false) (children p)
  ∧ dispatch (uncurry DragOver <$> [(5%Q, scenario.stacked [0; 1; 2])]) p = Normal p.
Proof.
  intros p.
  assert (H1 : Forall (λ n, sel_row_dragging n = false) (children p))
    by (by repeat constructor).
  split; [exact H1|].
  exact (proj1 (dragover_outside_drag p) H1 [(5%Q, scenario.stacked [0; 1; 2])]).
Defined.

End reorder_table.

Section add_exercise_flow.
Import browser edit_js spec.

(** X14.  The save-then-add flow always ends caught, and it never asks for
    a confirmation.  Suspended at a request it has shown nothing; once it
    has returned it has given exactly one piece of feedback, an alert or a
    reload.  It reloads exactly when both requests were answered with a
    success status; a save answered without one gives the save alert; an
    add answered without one, after a successful save, gives the add alert;
    a rejected request gives the network alert. *)
Theorem add_flow_feedback
    (e : env) (d : doc) (editForm addForm : form)
    (t : list (obs * doc)) (d' : doc) (out : outcome unit) :
  exec e d (on_add_submit editForm addForm) = (t, d', out) →
  out ≠ Uncaught
  ∧ confirms t = []
  ∧ (out = Hung → alerts t = [] ∧ reloads t = 0)
  ∧ (out = Returned tt → length (alerts t) + reloads t = 1)
  ∧ (reloads t = 1 ↔
       settle e 0 = Some (Fulfilled true) ∧ settle e 1 = Some (Fulfilled true))
  ∧ (alerts t =
       ["Konnte Änderungen nicht speichern. Bitte zuerst speichern, dann Übung hinzufügen."]
     ↔ settle e 0 = Some (Fulfilled false))
  ∧ (alerts t = ["Übung konnte nicht hinzugefügt werden."]
     ↔ settle e 0 = Some (Fulfilled true) ∧ settle e 1 = Some (Fulfilled false))
  ∧ (alerts t = ["Netzwerkfehler. Bitte erneut versuchen."]
     ↔ settle e 0 = Some Rejected
       ∨ (settle e 0 = Some (Fulfilled true) ∧ settle e 1 = Some Rejected)).
Proof.
  intros Hrun. unfold exec, on_add_submit in Hrun.
  cbn [run finally try_catch await_fetch] in Hrun.
  destruct (settle e 0) as [[[]|]|] eqn:H0; cbn in Hrun;
    [destruct (settle e 1) as [[[]|]|] eqn:H1; cbn in Hrun | | |];
    injection Hrun as <- <- <-; cbn;
    split_and!; try done; try (split; [done|]);
    try (split; intros H; first [discriminate H | by destruct H | done]);
    try (intros H; first [discriminate H | by destruct H]);
    try (split; [intros H; discriminate H | intros [H|[H H']]; discriminate]);
    try (intros [H|[H H']]; discriminate);
    try (split; [intros _; by eauto | done]).
Qed.

Lemma add_flow_feedback_witness :
  let e := Env (λ _, true) (λ n, if n =? 0 then Some (Fulfilled true) else Some Rejected) in
  let d := Doc (load [scenario.A; scenario.B; scenario.C]) (Some false) in
  let editForm := Form "/plans/1/edit" [("name", "Push")] in
  let addForm := Form "/plans/1/add" [("exercise_id", "4")] in
  ∃ t d' out,
    exec e d (on_add_submit editForm addForm) = (t, d', out)
    ∧ out ≠ Uncaught
    ∧ alerts t = ["Netzwerkfehler. Bitte erneut versuchen."].
Proof.
  intros e d editForm addForm.
  destruct (exec e d (on_add_submit editForm addForm)) as [[t d'] out] eqn:Hrun.
  exists t, d', out. split; [reflexivity|].
  destruct (add_flow_feedback e d editForm addForm t d' out Hrun)
    as (Hout & _ & _ & _ & _ & _ & _ & Hnet).
  split; [exact Hout|]. apply Hnet. right. by split.
Defined.


(** X15.  Whatever the answers of the server, the save-then-add flow on a
    table of distinct nodes leaves the table with the same nodes in the
    same order, [dragEl] as it was and the same rows, and with every
    position field showing the 1-based place of its row; all through the
    flow the table is the one it ends with. *)
Theorem add_flow_renumbers_table
    (e : env) (d : doc) (editForm addForm : form)
    (t : list (obs * doc)) (d' : doc) (out : outcome unit) :
  NoDup (key <$> children (tbody d)) →
  exec e d (on_add_submit editForm addForm) = (t, d', out) →
  children (tbody d') = updatePositions (children (tbody d))
  ∧ key <$> children (tbody d') = key <$> children (tbody d)
  ∧ dragEl (tbody d') = dragEl (tbody d)
  ∧ row_ids (children (tbody d')) = row_ids (children (tbody d))
  ∧ positions_in_sync (children (tbody d'))
  ∧ Forall (λ x, tbody (snd x) = tbody d') t.
Proof.
  intros Hnd Hrun.
  assert (Hfacts : children (tbody d') = updatePositions (children (tbody d))
                   ∧ dragEl (tbody d') = dragEl (tbody d)
                   ∧ Forall (λ x, tbody (snd x) = tbody d') t).
  { unfold exec, on_add_submit in Hrun.
    cbn [run finally try_catch await_fetch] in Hrun.
    destruct (settle e 0) as [[[]|]|] eqn:H0; cbn in Hrun;
      [destruct (settle e 1) as [[[]|]|] eqn:H1; cbn in Hrun | | |];
      injection Hrun as <- <- <-; cbn; split_and!; try done; by repeat constructor. }
  destruct Hfacts as (Hc & Hdr & Hall).
  rewrite Hc, updatePositions_renumber by done.
  split_and!; [done | apply renumber_keys | done | apply row_ids_renumber
              | apply renumber_in_sync | done].
Qed.

Lemma add_flow_renumbers_table_witness :
  let e := Env (λ _, true) (λ _, Some (Fulfilled false)) in
  let d := Doc (Page [scenario.C; scenario.A; scenario.B] None) (Some false) in
  let editForm := Form "/plans/1/edit" [("name", "Push")] in
  let addForm := Form "/plans/1/add" [("exercise_id", "4")] in
  NoDup (key <$> children (tbody d))
  ∧ ∃ t d' out,
      exec e d (on_add_submit editForm addForm) = (t, d', out)
      ∧ position <$> children (tbody d') = [Some "1"; Some "2"; Some "3"]
      ∧ positions_in_sync (children (tbody d')).
Proof.
  intros e d editForm addForm.
  assert (H1 : NoDup (key <$> children (tbody d)))
    by (by apply (bool_decide_unpack _); vm_compute).
  split; [exact H1|].
  destruct (exec e d (on_add_submit editForm addForm)) as [[t d'] out] eqn:Hrun.
  exists t, d', out. split; [reflexivity|].
  destruct (add_flow_renumbers_table e d editForm addForm t d' out H1 Hrun)
    as (Hc & _ & _ & _ & Hsync & _).
  split; [|exact Hsync]. by rewrite Hc.
Defined.



End add_exercise_flow.

Section sets_clamp.
Import js_string record_js record_spec.

Lemma substring_split s k :
  k ≤ String.length s →
  s = substring 0 k s +:+ substring k (String.length s - k) s.
Proof.
  revert k. induction s as [|a s IH]; intros k Hk.
  - by destruct k.
  - destruct k as [|k].
    + cbn [substring String.length Nat.sub]. rewrite string_app_nil_l.
      by rewrite substring_all.
    + simpl in Hk. cbn [substring String.length Nat.sub].
      rewrite string_app_cons. f_equal. apply IH. lia.
Qed.

(** [endsWith] holds exactly of the texts that are some text followed by
    the suffix. *)
Lemma endsWith_spec s suffix :
  endsWith s suffix = true ↔ ∃ p, s = p +:+ suffix.
Proof.
  unfold endsWith. split.
  - destruct (String.length suffix <=? String.length s) eqn:Hle; [|done].
    apply Nat.leb_le in Hle. intros Heq%bool_decide_eq_true.
    exists (substring 0 (String.length s - String.length suffix) s).
    pose proof (substring_split s (String.length s - String.length suffix)
                  ltac:(lia)) as Hsplit.
    replace (String.length s - (String.length s - String.length suffix))
      with (String.length suffix) in Hsplit by lia.
    by rewrite Heq in Hsplit.
  - intros [p ->]. rewrite string_length_app.
    replace (String.length suffix <=? String.length p + String.length suffix) with true
      by (symmetry; apply Nat.leb_le; lia).
    apply bool_decide_eq_true.
    replace (String.length p + String.length suffix - String.length suffix)
      with (String.length p + 0) by lia.
    rewrite substring_app_r. apply substring_all.
Qed.

(** X17.  The input handler is idempotent: run again on the element it
    returned, it returns it once more.  It never changes the name, and the
    value it leaves is the value it found, ["0"] or ["99"]. *)
Theorem input_handler_idempotent (target : option element) :
  on_input (on_input target) = on_input target
  ∧ ∀ el, target = Some el →
      ∃ el', on_input target = Some el'
        ∧ name el' = name el
        ∧ (value el' = value el ∨ value el' = "0" ∨ value el' = "99").
Proof.
  destruct target as [el|]; [|split; [done | by intros ? [=]]].
  assert (H0 : ∀ n, Number_or_0 (value (Element n "0")) = Num 0) by reflexivity.
  assert (H99 : ∀ n, Number_or_0 (value (Element n "99")) = Num 99)
    by (intros; by vm_compute).
  unfold on_input. destruct (is_sets_field el) eqn:Hsets.
  2:{ rewrite Hsets. split; [done|]. intros ? [= <-]. exists el. auto. }
  destruct (js_gt (Number_or_0 (value el)) (Num 99)) eqn:Hgt.
  - assert (Hs : is_sets_field
                   (Element (name (if js_lt (Number_or_0 (value el)) (Num 0)
                                   then Element (name el) "0" else el)) "99") = true).
    { by destruct (js_lt _ _). }
    rewrite Hs, H99. cbn [js_lt js_gt]. split; [done|].
    intros ? [= <-]. eexists. split; [done|].
    split; [by destruct (js_lt _ _) | auto].
  - destruct (js_lt (Number_or_0 (value el)) (Num 0)) eqn:Hlt.
    + assert (Hs : is_sets_field (Element (name el) "0") = true) by done.
      rewrite Hs, H0. cbn [js_lt js_gt]. split; [done|].
      intros ? [= <-]. eexists. split; [done|]. auto.
    + rewrite Hsets, Hlt, Hgt. split; [done|].
      intros ? [= <-]. exists el. auto.
Qed.

Lemma input_handler_idempotent_witness :
  let el := Element (Some "ex[3][sets]") "-5" in
  ∃ el', on_input (Some el) = Some el'
    ∧ name el' = name el
    ∧ (value el' = value el ∨ value el' = "0" ∨ value el' = "99")
    ∧ on_input (on_input (Some el)) = on_input (Some el).
Proof.
  intros el.
  destruct (input_handler_idempotent (Some el)) as [Hidem Hval].
  destruct (Hval el eq_refl) as (el' & Hrun & Hname & Hvalue).
  exists el'. by split_and!.
Defined.

(** X18.  The handler changes the value of an element only when the
    element's name is some text followed by [[sets]], and every element
    with such a name is a sets field; an event without target is left
    without target. *)
Theorem input_handler_only_sets_fields :
  (∀ el, on_input (Some el) ≠ Some el →
     ∃ p, name el = Some (p +:+ "[sets]"))
  ∧ (∀ p v, is_sets_field (Element (Some (p +:+ "[sets]")) v) = true)
  ∧ on_input None = None.
Proof.
  split_and!; [| |done].
  - intros el Hchange. unfold on_input in Hchange.
    destruct (is_sets_field el) eqn:Hsets; [|done].
    unfold is_sets_field in Hsets.
    destruct (name el) as [n|] eqn:Hn; [|done]. cbn [browser.truthy] in Hsets.
    case_decide; [done|]. apply endsWith_spec in Hsets as [p ->]. by exists p.
  - intros p v. unfold is_sets_field. cbn [name browser.truthy].
    rewrite decide_False by (by destruct p).
    apply endsWith_spec. by exists p.
Qed.

Lemma input_handler_only_sets_fields_witness :
  let el := Element (Some "ex[3][sets]") "150" in
  on_input (Some el) ≠ Some el
  ∧ ∃ p, name el = Some (p +:+ "[sets]").
Proof.
  intros el.
  assert (H1 : on_input (Some el) ≠ Some el) by (by vm_compute).
  split; [exact H1|].
  exact (proj1 input_handler_only_sets_fields el H1).
Defined.

End sets_clamp.

Section plan_delete.
Import browser.

Ltac trace_fact :=
  repeat first
    [ progress intros
    | match goal with
      | H : _ ∈ [] |- _ => by apply elem_of_nil in H
      | H : _ ∈ _ :: _ |- _ => apply elem_of_cons in H as [H|H]
      | H : (_, _) = (_, _) |- _ => injection H as ??; subst
      end
    | done
    | by eauto ].

(** X19.  The delete handler of the plan list never ends uncaught.  With no
    plan selected it shows its alert and neither asks nor sends; it sends at
    most one request, to [/plans/<id>/delete] for the selected id; a
    rejected request ends with the network alert and a response without a
    success status with the failure alert, in both cases without a reload
    and with the document as it was. *)
Theorem delete_click_reports_failures
    (e : env) (d : index_js.doc)
    (t : list (obs * index_js.doc)) (d' : index_js.doc) (out : outcome unit) :
  exec e d index_js.on_delete_click = (t, d', out) →
  out ≠ Uncaught
  ∧ length (requests t) ≤ 1
  ∧ (index_js.selId d = None →
       t = [(OAlert "Bitte einen Plan in der Liste auswählen.", d)])
  ∧ (∀ req res, (req, res) ∈ requests t →
       ∃ id, index_js.selId d = Some id
             ∧ req = Request ("/plans/" +:+ id +:+ "/delete") [])
  ∧ (∀ req, (req, Some Rejected) ∈ requests t →
       alerts t = ["Netzwerkfehler beim Löschen."] ∧ reloads t = 0 ∧ d' = d)
  ∧ (∀ req, (req, Some (Fulfilled false)) ∈ requests t →
       alerts t = ["Löschen fehlgeschlagen."] ∧ reloads t = 0 ∧ d' = d).
Proof.
  intros Hrun. unfold exec, index_js.on_delete_click in Hrun. cbn [run] in Hrun.
  destruct (index_js.selId d) as [id|] eqn:Hid;
    cbn [run await_fetch try_catch] in Hrun;
    [destruct (answer e 0) eqn:Ha; cbn in Hrun;
     [destruct (settle e 0) as [[[]|]|] eqn:Hs; cbn in Hrun|] |];
    injection Hrun as <- <- <-; cbn; split_and!; trace_fact; lia.
Qed.

Lemma delete_click_reports_failures_witness :
  let e := Env (λ _, true) (λ _, Some Rejected) in
  let d := index_js.Doc (Some "3") in
  ∃ t d' out,
    exec e d index_js.on_delete_click = (t, d', out)
    ∧ out ≠ Uncaught
    ∧ alerts t = ["Netzwerkfehler beim Löschen."].
Proof.
  intros e d.
  destruct (exec e d index_js.on_delete_click) as [[t d'] out] eqn:Hrun.
  exists t, d', out. split; [reflexivity|].
  destruct (delete_click_reports_failures e d t d' out Hrun)
    as (Hout & _ & _ & _ & Hrej & _).
  split; [exact Hout|].
  apply (Hrej (Request "/plans/3/delete" [])).
  vm_compute in Hrun. injection Hrun as <- _ _. by left.
Defined.

End plan_delete.

Section drag_events.
Import edit_js spec.



End drag_events.
